(** * Terrain generation of the voxel world: model and verification

    A shallow embedding of [src/world/World.cpp]: the height field
    ([getBiomeNoise], [getChunkHeight], [getNormalVector]), the chunk builder
    inside [World::generateChunk], the generation thread
    ([world_generation_fn]) and the frame-side operations of [World]
    ([startWorldGeneration], [render], [generateChunkMesh], [~World]).

    Conventions.
    - [int32_t] and [int] values are integers of [Z]; every arithmetic
      operation of the source on them is followed by the two's complement
      wrap-around [wrap32].
    - [float] is an abstract carrier with the operations of [FloatOps]; the
      definitions are written once for every carrier.  Two carriers are used
      in the theorems: the rationals (exact arithmetic that computes) and the
      reals (exact arithmetic with square roots).  Rounding is not modelled.
    - Heap arrays obtained from [malloc] are lists of optional cells: [None]
      is a cell that was never written; a write outside the array is a fault.
    - The two threads are interleaved at the granularity of one call of
      [World::generateChunk] (worker) and one call of [World::render] (main
      thread). *)

From Stdlib Require Import ZArith QArith Qround Reals Psatz String.
From stdpp Require Import base list.

Local Open Scope Z_scope.

(** ** Machine integers *)

Module Int32.

Definition min_int : Z := - 2 ^ 31.
Definition max_int : Z := 2 ^ 31 - 1.

Definition in_range (n : Z) : Prop := min_int <= n <= max_int.

  (** Two's complement reduction to 32 bits. *)
Definition wrap32 (n : Z) : Z := (n + 2 ^ 31) mod 2 ^ 32 - 2 ^ 31.

Definition add (a b : Z) : Z := wrap32 (a + b).
Definition mul (a b : Z) : Z := wrap32 (a * b).
  (** C++ integer division truncates toward zero. *)
Definition div (a b : Z) : Z := wrap32 (Z.quot a b).

End Int32.

(** ** Floating point carrier *)

Class FloatOps (F : Type) : Type := {
  fadd : F -> F -> F;
  fsub : F -> F -> F;
  fmul : F -> F -> F;
  fdiv : F -> F -> F;
  (** conversion [(float) n] of an integer *)
  of_int : Z -> F;
  (** conversion [(int) f]: the fractional part is discarded *)
  to_int : F -> Z;
  (** the value of a floating point literal *)
  flit : Q -> F
}.

Record vec3 (F : Type) : Type := Vec3 { vx : F; vy : F; vz : F }.
Arguments Vec3 {F} _ _ _.
Arguments vx {F} _.
Arguments vy {F} _.
Arguments vz {F} _.

(** Truncation toward zero of a rational and of a real number. *)
Definition Qtrunc (q : Q) : Z := Z.quot (Qnum q) (Zpos (Qden q)).

Definition Rtrunc (r : R) : Z :=
  if Rle_dec 0 r then Int_part r else - Int_part (- r).

#[export] Instance Q_FloatOps : FloatOps Q := {|
  fadd := Qplus; fsub := Qminus; fmul := Qmult; fdiv := Qdiv;
  of_int := inject_Z; to_int := Qtrunc; flit := fun q => q
|}.

#[export] Instance R_FloatOps : FloatOps R := {|
  fadd := Rplus; fsub := Rminus; fmul := Rmult; fdiv := Rdiv;
  of_int := IZR; to_int := Rtrunc; flit := Q2R
|}.

(** ** Constants and collaborators declared outside [World.cpp]

    [World.h], [SimplexNoise.h] and GLM are not part of the sources at hand;
    what [World.cpp] uses from them is collected here. *)

Record Terrain (F : Type) : Type := {
  (** [SimplexNoise::noise] *)
  noise : F -> F -> F;
  CHUNK_SIZE : Z;
  CHUNK_BIOME_COUNT : Z;
  (** [World::BIOME_HEIGHT_SCALING_FACTORS] *)
  BIOME_HEIGHT_SCALING_FACTORS : list F;
  (** what a read next to [BIOME_HEIGHT_SCALING_FACTORS] finds in memory *)
  beyond_table : Z -> F;
  (** [World::CHUNK_GENERATION_OCTAVES]: pairs (wavelength, amplitude) *)
  CHUNK_GENERATION_OCTAVES : list (F * F);
  CHUNK_GENERATION_MAX_HEIGHT : F;
  CHUNK_GENERATION_NORMAL_DELTA : F
}.
Arguments noise {F} _ _ _.
Arguments CHUNK_SIZE {F} _.
Arguments CHUNK_BIOME_COUNT {F} _.
Arguments BIOME_HEIGHT_SCALING_FACTORS {F} _.
Arguments beyond_table {F} _ _.
Arguments CHUNK_GENERATION_OCTAVES {F} _.
Arguments CHUNK_GENERATION_MAX_HEIGHT {F} _.
Arguments CHUNK_GENERATION_NORMAL_DELTA {F} _.

(** ** HeightField *)

Section HeightField.
Context {F : Type} `{FloatOps F}.
Variable T : Terrain F.

  (** [table[i]] on a C array: inside the array the element, outside whatever
      lies next to it. *)
Definition array_read (table : list F) (i : Z) : F :=
    if decide (0 <= i < Z.of_nat (length table))
    then default (beyond_table T i) (table !! Z.to_nat i)
    else beyond_table T i.

Definition getBiomeNoise (x z : F) : F :=
    fdiv (fadd (noise T (fdiv x (flit 100)) (fdiv z (flit 100))) (of_int 1))
         (of_int 2).

  (** The subscript of the biome table in [getChunkHeight]. *)
Definition biome_index (biome_noise : F) : Z :=
    to_int (fmul biome_noise (of_int (CHUNK_BIOME_COUNT T))).

  (** The [for (auto octave : ...)] loop: [resultingHeight += ...]. *)
Definition octave_loop (x z : F) (octaves : list (F * F)) (resultingHeight : F) : F :=
    fold_left
      (fun acc octave =>
         fadd acc (fmul (noise T (fdiv x (fst octave)) (fdiv z (fst octave)))
                        (snd octave)))
      octaves resultingHeight.

Definition getChunkHeight (x z : F) : F :=
    let x := fdiv x (flit 10) in
    let z := fdiv z (flit 10) in
    let biome_noise := getBiomeNoise x z in
    let biome_height_factor :=
      array_read (BIOME_HEIGHT_SCALING_FACTORS T) (biome_index biome_noise) in
    let biome_height_factor := fmul biome_height_factor biome_noise in
    let resultingHeight :=
      octave_loop x z (CHUNK_GENERATION_OCTAVES T) (flit 0) in
    let resultingHeight := fmul resultingHeight (CHUNK_GENERATION_MAX_HEIGHT T) in
    fmul biome_height_factor resultingHeight.

(** [glm::normalize] is taken as it comes. *)
Variable normalize : vec3 F -> vec3 F.

Definition getNormalVector (x z : F) : vec3 F :=
    let delta := CHUNK_GENERATION_NORMAL_DELTA T in
    let height1 := getChunkHeight (fsub x delta) z in
    let height2 := getChunkHeight (fadd x delta) z in
    let height3 := getChunkHeight x (fsub z delta) in
    let height4 := getChunkHeight x (fadd z delta) in
    normalize (Vec3 (fsub height1 height2) (fmul (flit 2) delta)
                      (fsub height3 height4)).

  (** The contribution of one octave: noise sampled at the octave's
    wavelength, scaled by its amplitude. *)
Definition octave_term (x z : F) (octave : F * F) : F :=
  fmul (noise T (fdiv x (fst octave)) (fdiv z (fst octave))) (snd octave).

(** The sum of the contributions over the octave table, first octave first. *)
Fixpoint octave_sum_rev (x z : F) (reversed : list (F * F)) : F :=
  match reversed with
  | [] => flit 0
  | octave :: earlier => fadd (octave_sum_rev x z earlier) (octave_term x z octave)
  end.

Definition octave_sum (x z : F) (octaves : list (F * F)) : F :=
  octave_sum_rev x z (rev octaves).

(** The height formula the documentation gives: the octave sum, times the
      scaling constant of the biome band, times the maximum height. *)
Definition height_as_documented (x z : F) : F :=
    let x := fdiv x (flit 10) in
    let z := fdiv z (flit 10) in
    let band := biome_index (getBiomeNoise x z) in
    fmul (fmul (octave_sum x z (CHUNK_GENERATION_OCTAVES T))
               (array_read (BIOME_HEIGHT_SCALING_FACTORS T) band))
         (CHUNK_GENERATION_MAX_HEIGHT T).

End HeightField.

(** ** ChunkBuilder: the body of [World::generateChunk] after the registry scan *)

(** A heap array: one optional cell per element, [None] until first written. *)
Abbreviation array A := (list (option A)).

Definition malloc {A : Type} (n : Z) : array A := replicate (Z.to_nat n) None.

(** [a[i] = v]; writing outside the allocation is a fault. *)
Definition store {A : Type} (a : array A) (i : Z) (v : A) : option (array A) :=
  if decide (0 <= i < Z.of_nat (length a))
  then Some (<[Z.to_nat i := Some v]> a)
  else None.

(** [vertex_t] as the initialiser in [generateChunk] fills it. *)
Record vertex_t (F : Type) : Type := Vertex {
  v_x : F; v_y : F; v_z : F; v_nx : F; v_ny : F; v_nz : F
}.
Arguments Vertex {F} _ _ _ _ _ _.

Record vbo_data_t (F : Type) : Type := VboData {
  vertices : array (vertex_t F);
  vertices_count : Z;
  indices : array Z;
  indices_count : Z
}.
Arguments VboData {F} _ _ _ _.
Arguments vertices {F} _.
Arguments vertices_count {F} _.
Arguments indices {F} _.
Arguments indices_count {F} _.

(** The locals of [generateChunk] that the two loops update. *)
Record build_state (F : Type) : Type := BuildState {
  data_points : array F;
  b_indices : array Z;
  b_vertices : array (vertex_t F);
  indices_index : Z;
  vertices_index : Z
}.
Arguments BuildState {F} _ _ _ _ _.
Arguments data_points {F} _.
Arguments b_indices {F} _.
Arguments b_vertices {F} _.
Arguments indices_index {F} _.
Arguments vertices_index {F} _.

(** [for (i = start; ...; i++) body], [n] iterations. *)
Fixpoint for_up {S : Type} (n : nat) (i : Z) (body : Z -> S -> option S) (s : S)
  : option S :=
  match n with
  | O => Some s
  | Datatypes.S n' =>
      match body i s with
      | Some s' => for_up n' (Int32.add i 1) body s'
      | None => None
      end
  end.

Section ChunkBuilder.
Context {F : Type} `{FloatOps F}.
Variable T : Terrain F.
Variable normalize : vec3 F -> vec3 F.

Let CS : Z := CHUNK_SIZE T.

Definition mesh_width : Z := Int32.add CS 1.
Definition the_indices_count : Z := Int32.mul (Int32.mul CS CS) 6.

  (** [indices[indices_index++] = v] *)
Definition push_index (v : Z) (s : build_state F) : option (build_state F) :=
    ind ← store (b_indices s) (indices_index s) v;
    Some (BuildState (data_points s) ind (b_vertices s)
                     (Int32.add (indices_index s) 1) (vertices_index s)).

  (** The vertex emitted for grid point [(i, j)] of the chunk at [(x, z)]. *)
Definition sample_x (x i : Z) : F := fsub (of_int (Int32.add x i)) (flit (1 # 2)).

Definition grid_vertex (x z i j : Z) : vertex_t F :=
    let cx := sample_x x i in
    let cz := sample_x z j in
    let cy := getChunkHeight T cx cz in
    let normal := getNormalVector T normalize cx cz in
    Vertex cx cy cz (vx normal) (vy normal) (vz normal).

  (** [top_left], [top_right], [bottom_left], [bottom_right] of cell [(i, j)]. *)
Definition top_left (i j : Z) : Z := Int32.add (Int32.mul i mesh_width) j.
Definition bottom_left (i j : Z) : Z :=
    Int32.add (Int32.mul (Int32.add i 1) mesh_width) j.
Definition top_right (i j : Z) : Z :=
    Int32.add (Int32.mul i mesh_width) (Int32.add j 1).
Definition bottom_right (i j : Z) : Z :=
    Int32.add (Int32.mul (Int32.add i 1) mesh_width) (Int32.add j 1).

  (** The body of the inner loop. *)
Definition cell_body (x z i j : Z) (s : build_state F) : option (build_state F) :=
    let v := grid_vertex x z i j in
    vs ← store (b_vertices s) (vertices_index s) v;
    let s := BuildState (data_points s) (b_indices s) vs
                        (indices_index s) (Int32.add (vertices_index s) 1) in
    if (i <? CS) && (j <? CS) then
      dp ← store (data_points s) (Int32.add (Int32.mul i CS) j) (v_y F v);
      let s := BuildState dp (b_indices s) (b_vertices s)
                          (indices_index s) (vertices_index s) in
      s ← push_index (top_left i j) s;
      s ← push_index (top_right i j) s;
      s ← push_index (bottom_left i j) s;
      s ← push_index (top_right i j) s;
      s ← push_index (bottom_right i j) s;
      push_index (bottom_left i j) s
    else Some s.

  (** [for (i = 0; i <= CHUNK_SIZE; i++) for (j = 0; j <= CHUNK_SIZE; j++)] *)
Definition build_loops (x z : Z) (s : build_state F) : option (build_state F) :=
    for_up (Z.to_nat (CS + 1)) 0
           (fun i s => for_up (Z.to_nat (CS + 1)) 0 (fun j s => cell_body x z i j s) s)
           s.

  (** The allocations at the head of [generateChunk]. *)
Definition build_init : build_state F :=
    BuildState (malloc (CS * CS)) (malloc the_indices_count)
               (malloc (mesh_width * mesh_width)) 0 0.

  (** What [generateChunk] hands over for a coordinate not yet registered:
      the height grid of the chunk and the mesh data. *)
Definition build_chunk (x z : Z) : option (array F * vbo_data_t F) :=
    s ← build_loops x z build_init;
    Some (data_points s,
          VboData (b_vertices s) (Int32.mul mesh_width mesh_width)
                  (b_indices s) the_indices_count).

End ChunkBuilder.

(** ** World: registry, hand-off queue and the two threads *)

(** Generation limits; [world_generation_fn] writes them as literals. *)
Record Limits : Type := {
  chunk_generation_radius : Z;
  chunk_ceiling : Z;
  object_ceiling : Z
}.

Definition source_limits : Limits :=
  {| chunk_generation_radius := 10; chunk_ceiling := 1000; object_ceiling := 100 |}.

(** Heap blocks obtained by [malloc] or [new] for one chunk.  The number is
    the rank of the build that allocated the block and stands for its
    address. *)
Inductive block_kind : Type :=
  | HeightMapBlock | IndicesBlock | VerticesBlock | VboDataBlock
  | ChunkBlock | ImmatureBlock | MeshBlock.

Definition block : Type := block_kind * Z.

#[export] Instance block_kind_eq_dec : EqDecision block_kind.
Proof. solve_decision. Defined.

Definition free (b : block) (heap : list block) : list block :=
  filter (fun b' => b' <> b) heap.

(** A pointer to the observation point: null, or the one [Transformation]
    the caller tracks. *)
Inductive obs_ptr : Type := NullObservation | ObservationRef.

Inductive fault_kind : Type :=
  | OutOfBoundsWrite      (* a store outside a heap array *)
  | UseAfterFree.         (* the worker dereferences a destroyed World *)

(** Where the generation thread stands in [world_generation_fn]. *)
Inductive worker_state : Type :=
  | NotSpawned
  | AtEntry (observationPoint : obs_ptr)
  | AtLoopHead
  | InRing (px pz x z : Z)
  | Returned.

(** [Drawable*] and [Updatable*] are opaque to the world. *)
Definition Drawable : Type := nat.
Definition Updatable : Type := nat.

Record chunk_t (H V : Type) : Type := Chunk {
  chunk_x : Z;
  chunk_z : Z;
  height_map : H;
  mesh : option V;
  (** rank of the build that allocated the chunk *)
  chunk_serial : Z
}.
Arguments Chunk {H V} _ _ _ _ _.
Arguments chunk_x {H V} _.
Arguments chunk_z {H V} _.
Arguments height_map {H V} _.
Arguments mesh {H V} _.
Arguments chunk_serial {H V} _.

Record immature_chunk_data_t (H M V : Type) : Type := Immature {
  chunk : chunk_t H V;
  mesh_data : M
}.
Arguments Immature {H M V} _ _.
Arguments chunk {H M V} _.
Arguments mesh_data {H M V} _.

Record World (H M V : Type) : Type := MkWorld {
  chunks : list (chunk_t H V);
  chunkMeshGenerationQueue : list (immature_chunk_data_t H M V);
  drawables : list Drawable;
  worldObjects : list Updatable;
  (** whether [worldGenerationThread] is non-null *)
  worldGenerationThread : bool
}.
Arguments MkWorld {H M V} _ _ _ _ _.
Arguments chunks {H M V} _.
Arguments chunkMeshGenerationQueue {H M V} _.
Arguments drawables {H M V} _.
Arguments worldObjects {H M V} _.
Arguments worldGenerationThread {H M V} _.

(** The World together with what surrounds it: the generation thread, the
    observation point, the error stream and the heap. *)
Record Machine (H M V P : Type) : Type := MkMachine {
  world : World H M V;
  destroyed : bool;
  worker : worker_state;
  observation : vec3 P;
  cerr : list string;
  heap : list block;
  (** coordinates for which [generateChunk] ran its full build, in order *)
  builds : list (Z * Z);
  fault : option fault_kind
}.
Arguments MkMachine {H M V P} _ _ _ _ _ _ _ _.
Arguments world {H M V P} _.
Arguments destroyed {H M V P} _.
Arguments worker {H M V P} _.
Arguments observation {H M V P} _.
Arguments cerr {H M V P} _.
Arguments heap {H M V P} _.
Arguments builds {H M V P} _.
Arguments fault {H M V P} _.

Inductive event (P : Type) : Type :=
  | StartWorldGeneration (observationPoint : obs_ptr)
  | WorkerStep
  | Render
  | MoveObservation (position : vec3 P)
  | Destroy.
Arguments StartWorldGeneration {P} _.
Arguments WorkerStep {P}.
Arguments Render {P}.
Arguments MoveObservation {P} _.
Arguments Destroy {P}.

Definition no_observation_message : string :=
  "No observation point provided, aborting world generation.".

Section WorldMachine.
Context {H M V P : Type}.
  (** the build of [generateChunk] (height grid and mesh data) *)
Variable build : Z -> Z -> option (H * M).
  (** [new VBO(); withVertices; withIndices; build()] *)
Variable upload : M -> V.
  (** [(int32_t) position.x] *)
Variable position_to_int : P -> Z.
Variable CS : Z.
Variable L : Limits.

Abbreviation machine := (Machine H M V P).

Definition set_world (m : machine) (w : World H M V) : machine :=
    MkMachine w (destroyed m) (worker m) (observation m) (cerr m) (heap m)
              (builds m) (fault m).
Definition set_worker (m : machine) (s : worker_state) : machine :=
    MkMachine (world m) (destroyed m) s (observation m) (cerr m) (heap m)
              (builds m) (fault m).
Definition set_fault (m : machine) (f : fault_kind) : machine :=
    MkMachine (world m) (destroyed m) (worker m) (observation m) (cerr m) (heap m)
              (builds m) (Some f).

  (** The scan at the head of [generateChunk]. *)
Definition registered (x z : Z) (cs : list (chunk_t H V)) : bool :=
    existsb (fun c => (chunk_x c =? x) && (chunk_z c =? z)) cs.

Definition build_blocks (id : Z) : list block :=
    [ (HeightMapBlock, id); (IndicesBlock, id); (VerticesBlock, id);
      (ChunkBlock, id); (ImmatureBlock, id); (VboDataBlock, id) ].

  (** [World::generateChunk] *)
Definition generateChunk (m : machine) (x z : Z) : machine :=
    let w := world m in
    if registered x z (chunks w) then m
    else
      match build x z with
      | None => set_fault m OutOfBoundsWrite
      | Some (data_points, data) =>
          let id := Z.of_nat (length (builds m)) in
          let generated := Chunk x z data_points None id in
          let chunk_mesh_data := Immature generated data in
          MkMachine
            (MkWorld (chunks w) (chunkMeshGenerationQueue w ++ [chunk_mesh_data])
                     (drawables w) (worldObjects w) (worldGenerationThread w))
            (destroyed m) (worker m) (observation m) (cerr m)
            (heap m ++ build_blocks id)
            (builds m ++ [(x, z)]) (fault m)
      end.

  (** [World::generateChunkMesh] *)
Definition generateChunkMesh (m : machine) (c : chunk_t H V) (vbo_data : M)
    : machine :=
    let w := world m in
    let id := chunk_serial c in
    let c' := Chunk (chunk_x c) (chunk_z c) (height_map c) (Some (upload vbo_data)) id in
    MkMachine
      (MkWorld (chunks w ++ [c']) (chunkMeshGenerationQueue w)
               (drawables w) (worldObjects w) (worldGenerationThread w))
      (destroyed m) (worker m) (observation m) (cerr m)
      (free (VboDataBlock, id)
         (free (VerticesBlock, id)
            (free (IndicesBlock, id) (heap m ++ [(MeshBlock, id)]))))
      (builds m) (fault m).

  (** [World::render]: the draw calls leave the state alone; then at most one
      queued payload is turned into a mesh and popped. *)
Definition render (m : machine) : machine :=
    match chunkMeshGenerationQueue (world m) with
    | [] => m
    | chunk_mesh_data :: rest =>
        let m := generateChunkMesh m (chunk chunk_mesh_data)
                                   (mesh_data chunk_mesh_data) in
        let w := world m in
        set_world m (MkWorld (chunks w) rest (drawables w) (worldObjects w)
                             (worldGenerationThread w))
    end.

  (** [World::startWorldGeneration] *)
Definition startWorldGeneration (m : machine) (observationPoint : obs_ptr)
    : machine :=
    let w := world m in
    if worldGenerationThread w then m
    else
      MkMachine (MkWorld (chunks w) (chunkMeshGenerationQueue w) [] [] true)
                (destroyed m) (AtEntry observationPoint) (observation m)
                (cerr m) (heap m) (builds m) (fault m).

  (** Entering the two [for] loops, and moving to the next iteration. *)
Definition enter_ring (px pz : Z) : worker_state :=
    let r := chunk_generation_radius L in
    if Int32.wrap32 (- r) <? r
    then InRing px pz (Int32.wrap32 (- r)) (Int32.wrap32 (- r))
    else AtLoopHead.

Definition next_in_ring (px pz x z : Z) : worker_state :=
    let r := chunk_generation_radius L in
    if Int32.add z 1 <? r then InRing px pz x (Int32.add z 1)
    else if Int32.add x 1 <? r
         then (if Int32.wrap32 (- r) <? r
               then InRing px pz (Int32.add x 1) (Int32.wrap32 (- r))
               else AtLoopHead)
         else AtLoopHead.

  (** The chunk-aligned centre on one axis. *)
Definition chunk_align (p : Z) : Z := Int32.mul (Int32.div p CS) CS.

  (** One step of the generation thread running [world_generation_fn]. *)
Definition world_generation_fn_step (m : machine) : machine :=
    match worker m with
    | NotSpawned | Returned => m
    | AtEntry NullObservation =>
        MkMachine (world m) (destroyed m) Returned (observation m)
                  (cerr m ++ [no_observation_message]) (heap m) (builds m) (fault m)
    | AtEntry ObservationRef =>
        if destroyed m then set_fault m UseAfterFree
        else if Z.of_nat (length (worldObjects (world m))) >? object_ceiling L
             then set_worker m Returned
             else set_worker m AtLoopHead
    | AtLoopHead =>
        if destroyed m then set_fault m UseAfterFree
        else if Z.of_nat (length (chunks (world m))) >? chunk_ceiling L
             then set_worker m Returned
             else
               let px := chunk_align (position_to_int (vx (observation m))) in
               let pz := chunk_align (position_to_int (vz (observation m))) in
               set_worker m (enter_ring px pz)
    | InRing px pz x z =>
        if destroyed m then set_fault m UseAfterFree
        else
          let m := generateChunk m (Int32.add px (Int32.mul x CS))
                                   (Int32.add pz (Int32.mul z CS)) in
          match fault m with
          | Some _ => m
          | None => set_worker m (next_in_ring px pz x z)
          end
    end.

  (** [World::~World]: the queue is drained, the chunks are released, the
      thread is detached and its handle deleted. *)
Definition drain_queue (q : list (immature_chunk_data_t H M V)) (heap : list block)
    : list block :=
    fold_left
      (fun hp data =>
         let id := chunk_serial (chunk data) in
         free (ChunkBlock, id)
           (free (VboDataBlock, id)
              (free (VerticesBlock, id) (free (IndicesBlock, id) hp))))
      q heap.

Definition release_chunks (cs : list (chunk_t H V)) (heap : list block)
    : list block :=
    fold_left
      (fun hp c =>
         let id := chunk_serial c in
         free (ChunkBlock, id) (free (MeshBlock, id) (free (HeightMapBlock, id) hp)))
      cs heap.

Definition destroy_world (m : machine) : machine :=
    let w := world m in
    MkMachine (MkWorld [] [] [] [] false) true (worker m) (observation m) (cerr m)
              (release_chunks (chunks w)
                 (drain_queue (chunkMeshGenerationQueue w) (heap m)))
              (builds m) (fault m).

  (** One step of the whole system.  A faulted execution has no further
      defined behaviour and is frozen; the main thread does not call into a
      destroyed World. *)
Definition step (m : machine) (e : event P) : machine :=
    match fault m with
    | Some _ => m
    | None =>
        match e with
        | WorkerStep => world_generation_fn_step m
        | MoveObservation p =>
            MkMachine (world m) (destroyed m) (worker m) p (cerr m) (heap m)
                      (builds m) (fault m)
        | StartWorldGeneration o =>
            if destroyed m then m else startWorldGeneration m o
        | Render => if destroyed m then m else render m
        | Destroy => if destroyed m then m else destroy_world m
        end
    end.

Definition run (m : machine) (es : list (event P)) : machine :=
    fold_left step es m.

  (** Coordinates of the registry and of the queue. *)
Definition chunk_coords (m : machine) : list (Z * Z) :=
    map (fun c => (chunk_x c, chunk_z c)) (chunks (world m)).
Definition queue_coords (m : machine) : list (Z * Z) :=
    map (fun d => (chunk_x (chunk d), chunk_z (chunk d)))
        (chunkMeshGenerationQueue (world m)).

End WorldMachine.

(** A World as its constructor leaves it, with the observation point at [p]. *)
Definition fresh_machine {H M V P : Type} (p : vec3 P) : Machine H M V P :=
  MkMachine (MkWorld [] [] [] [] false) false NotSpawned p [] [] [] None.

(** ** The World of [World.cpp]: the machine at its own payload types *)

(** The GPU mesh: what [withVertices], [withIndices] and [build] are given. *)
Record VBO (F : Type) : Type := MkVBO {
  vbo_vertices : array (vertex_t F);
  vbo_vertices_count : Z;
  vbo_indices : array Z;
  vbo_indices_count : Z
}.
Arguments MkVBO {F} _ _ _ _.

Definition upload_mesh {F : Type} (d : vbo_data_t F) : VBO F :=
  MkVBO (vertices d) (vertices_count d) (indices d) (indices_count d).

Definition WorldMachine (F : Type) : Type :=
  Machine (array F) (vbo_data_t F) (VBO F) F.

Definition world_step {F : Type} `{FloatOps F} (T : Terrain F)
  (normalize : vec3 F -> vec3 F) (L : Limits)
  : WorldMachine F -> event F -> WorldMachine F :=
  step (build_chunk T normalize) upload_mesh to_int (CHUNK_SIZE T) L.

Definition world_run {F : Type} `{FloatOps F} (T : Terrain F)
  (normalize : vec3 F -> vec3 F) (L : Limits)
  : WorldMachine F -> list (event F) -> WorldMachine F :=
  run (build_chunk T normalize) upload_mesh to_int (CHUNK_SIZE T) L.

(** ** The control skeleton: the same machine with empty payloads *)

Definition Skeleton : Type := Machine unit unit unit Z.

Definition skeleton_step (CS : Z) (L : Limits) : Skeleton -> event Z -> Skeleton :=
  step (fun _ _ => Some (tt, tt)) (fun _ => tt) (fun p => p) CS L.

Definition skeleton_run (CS : Z) (L : Limits) : Skeleton -> list (event Z) -> Skeleton :=
  run (fun _ _ => Some (tt, tt)) (fun _ => tt) (fun p => p) CS L.

Section Erasure.
Context {H M V P : Type}.
Variable position_to_int : P -> Z.

Definition erase_chunk (c : chunk_t H V) : chunk_t unit unit :=
  Chunk (chunk_x c) (chunk_z c) tt (option_map (fun _ => tt) (mesh c))
        (chunk_serial c).

Definition erase_immature (d : immature_chunk_data_t H M V)
  : immature_chunk_data_t unit unit unit :=
  Immature (erase_chunk (chunk d)) tt.

Definition erase_world (w : World H M V) : World unit unit unit :=
  MkWorld (map erase_chunk (chunks w))
          (map erase_immature (chunkMeshGenerationQueue w))
          (drawables w) (worldObjects w) (worldGenerationThread w).

Definition erase_position (p : vec3 P) : vec3 Z :=
  Vec3 (position_to_int (vx p)) (position_to_int (vy p)) (position_to_int (vz p)).

Definition erase (m : Machine H M V P) : Skeleton :=
  MkMachine (erase_world (world m)) (destroyed m) (worker m)
            (erase_position (observation m)) (cerr m) (heap m) (builds m)
            (fault m).

Definition erase_event (e : event P) : event Z :=
  match e with
  | StartWorldGeneration o => StartWorldGeneration o
  | WorkerStep => WorkerStep
  | Render => Render
  | MoveObservation p => MoveObservation (erase_position p)
  | Destroy => Destroy
  end.

End Erasure.

(** ** GLM on real vectors *)

Definition dot (a b : vec3 R) : R :=
  (vx a * vx b + vy a * vy b + vz a * vz b)%R.

(** [glm::normalize(v) = v * inversesqrt(dot(v, v))] *)
Definition glm_normalize (v : vec3 R) : vec3 R :=
  let k := (/ sqrt (dot v v))%R in
  Vec3 (vx v * k)%R (vy v * k)%R (vz v * k)%R.

(** [glm::length(v) = sqrt(dot(v, v))] *)
Definition glm_length (v : vec3 R) : R := sqrt (dot v v).

(** ** Grid alignment of the observation point *)

(** [r] is the greatest multiple of [CS] not exceeding the position [p]. *)
Definition is_floor_multiple (CS : Z) (p : Q) (r : Z) : Prop :=
  (CS | r) /\ (inject_Z r <= p)%Q /\ (p < inject_Z (r + CS))%Q.

(** [r] is the least multiple of [CS] not below the position [p]. *)
Definition is_ceiling_multiple (CS : Z) (p : Q) (r : Z) : Prop :=
  (CS | r) /\ (inject_Z (r - CS) < p)%Q /\ (p <= inject_Z r)%Q.

(** [px] of [world_generation_fn] for an observation point at [p]. *)
Definition center_axis {F : Type} `{FloatOps F} (CS : Z) (p : F) : Z :=
  chunk_align CS (to_int p).

(** ** Scenario constants

    The single octave (wavelength 50, amplitude 1) and the maximum height 10
    of the documented scenario, one biome band of scale 1, [CHUNK_SIZE] 16. *)

Definition scenario_terrain {F : Type} `{FloatOps F} (n : F -> F -> F) : Terrain F :=
  {| noise := n;
     CHUNK_SIZE := 16;
     CHUNK_BIOME_COUNT := 1;
     BIOME_HEIGHT_SCALING_FACTORS := [flit 1];
     beyond_table := fun _ => flit 0;
     CHUNK_GENERATION_OCTAVES := [(flit 50, flit 1)];
     CHUNK_GENERATION_MAX_HEIGHT := flit 10;
     CHUNK_GENERATION_NORMAL_DELTA := flit (1 # 10) |}.

(** The scenario over the rationals, for a noise that is constant. *)
Definition constant_terrain (c : Q) : Terrain Q :=
  scenario_terrain (fun _ _ => c).

(** The terrain [T] with [n] for its noise function, all constants kept. *)
Definition with_noise {F : Type} (T : Terrain F) (n : F -> F -> F) : Terrain F :=
  {| noise := n;
     CHUNK_SIZE := CHUNK_SIZE T;
     CHUNK_BIOME_COUNT := CHUNK_BIOME_COUNT T;
     BIOME_HEIGHT_SCALING_FACTORS := BIOME_HEIGHT_SCALING_FACTORS T;
     beyond_table := beyond_table T;
     CHUNK_GENERATION_OCTAVES := CHUNK_GENERATION_OCTAVES T;
     CHUNK_GENERATION_MAX_HEIGHT := CHUNK_GENERATION_MAX_HEIGHT T;
     CHUNK_GENERATION_NORMAL_DELTA := CHUNK_GENERATION_NORMAL_DELTA T |}.

(** The scenario over the reals, on flat noise. *)
Definition flat_terrain : Terrain R := scenario_terrain (fun _ _ => 0%R).

(** ** What the chunk builder is expected to produce *)

(** An array of [N] cells whose first cells hold [l], the rest unwritten. *)
Definition filled {A : Type} (N : nat) (l : list A) : array A :=
  map Some l ++ replicate (N - length l) None.

(** The two triangles of cell [(i, j)] under row-major vertex numbering of
    row width [CS + 1]: top-left, top-right, bottom-left, then top-right,
    bottom-right, bottom-left. *)
Definition cell_triangles (CS i j : Z) : list Z :=
  let w := CS + 1 in
  [ i * w + j; i * w + (j + 1); (i + 1) * w + j;
    i * w + (j + 1); (i + 1) * w + (j + 1); (i + 1) * w + j ].

Definition expected_indices (CS : Z) : list Z :=
  flat_map (fun i => flat_map (fun j => cell_triangles CS i j) (seqZ 0 CS))
           (seqZ 0 CS).

(** Triangles that row [i] contributes from column [j] on. *)
Definition row_triangles_from (CS i j : Z) : list Z :=
  if decide (i < CS)
  then flat_map (fun j => cell_triangles CS i j) (seqZ j (CS - j))
  else [].

Section Expected.
Context {F : Type} `{FloatOps F}.
Variable T : Terrain F.
Variable normalize : vec3 F -> vec3 F.

(** Heights of the core grid, row by row. *)
Definition expected_heights (x z : Z) : list F :=
  flat_map (fun i => map (fun j => v_y F (grid_vertex T normalize x z i j))
                         (seqZ 0 (CHUNK_SIZE T)))
           (seqZ 0 (CHUNK_SIZE T)).

(** Heights that row [i] contributes from column [j] on. *)
Definition row_heights_from (x z i j : Z) : list F :=
  if decide (i < CHUNK_SIZE T)
  then map (fun j => v_y F (grid_vertex T normalize x z i j))
           (seqZ j (CHUNK_SIZE T - j))
  else [].

(** One vertex per grid point, overlap row and column included. *)
Definition expected_vertices (x z : Z) : list (vertex_t F) :=
  flat_map (fun i => map (fun j => grid_vertex T normalize x z i j)
                         (seqZ 0 (CHUNK_SIZE T + 1)))
           (seqZ 0 (CHUNK_SIZE T + 1)).

(** The locals of [generateChunk] once the vertices [V], the heights [D] and
    the indices [I] have been written, in this order, from the first cell on. *)
Definition written_state (V : list (vertex_t F)) (D : list F) (I : list Z)
  : build_state F :=
  let CS := CHUNK_SIZE T in
  BuildState (filled (Z.to_nat (CS * CS)) D)
             (filled (Z.to_nat (CS * CS * 6)) I)
             (filled (Z.to_nat ((CS + 1) * (CS + 1))) V)
             (Z.of_nat (length I)) (Z.of_nat (length V)).

End Expected.


(** ** Executions

    The World of the scenario runs on flat noise over the reals, with GLM's
    normalisation. *)

Definition origin : vec3 R := Vec3 0%R 0%R 0%R.

Definition at_x (px : Z) : vec3 R := Vec3 (IZR px) 0%R 0%R.

Definition scenario_run (L : Limits) (es : list (event R)) : WorldMachine R :=
  world_run flat_terrain glm_normalize L (fresh_machine origin) es.

(** Whose turn it is in an interleaving of the two threads. *)
Inductive turn : Type := WorkerTurn | FrameTurn.

Definition turn_event {P : Type} (t : turn) : event P :=
  match t with
  | WorkerTurn => WorkerStep
  | FrameTurn => Render
  end.

(** Radius 1 and ceiling 9, as in the documented scenario. *)
Definition scenario_limits : Limits :=
  {| chunk_generation_radius := 1; chunk_ceiling := 9; object_ceiling := 100 |}.

(** The worker enters the function, passes the loop head and visits the 400
    coordinates of the ring; it passes the loop head again and visits the
    first coordinate a second time.  No frame is rendered meanwhile; 401
    frames follow. *)
Definition twice_around : list (event R) :=
  StartWorldGeneration ObservationRef
  :: replicate 404 WorkerStep ++ replicate 401 Render.

(** Three rings around three positions of the observation point, 400
    coordinates each, pairwise disjoint; then [frames] frames. *)
Definition three_rings (frames : nat) : list (event R) :=
  StartWorldGeneration ObservationRef
  :: replicate 402 WorkerStep
  ++ MoveObservation (at_x 320) :: replicate 401 WorkerStep
  ++ MoveObservation (at_x 640) :: replicate 401 WorkerStep
  ++ replicate frames Render.

(** Two chunks are built, one of them is rendered, then the World is
    destroyed. *)
Definition destroyed_while_generating : list (event R) :=
  [ StartWorldGeneration ObservationRef;
    WorkerStep; WorkerStep; WorkerStep; WorkerStep;
    Render; Destroy ].

(** One pass of the scenario's ring, then the frames that consume it. *)
Definition one_pass : list (event R) :=
  StartWorldGeneration ObservationRef
  :: replicate 6 WorkerStep ++ replicate 4 Render.

(** A World that holds one drawable and has not started generating. *)
Definition world_with_drawable : WorldMachine R :=
  MkMachine (MkWorld [] [] [7%nat] [] false) false NotSpawned origin [] [] [] None.

(** After the registry has reached 1000 chunks: one more frame, or the
    observation point moves on and the worker takes two more steps. *)
Definition one_more_frame : list (event R) := three_rings 1000 ++ [Render].

Definition two_more_steps : list (event R) :=
  three_rings 1000 ++ [MoveObservation (at_x 960); WorkerStep; WorkerStep].

(** The worker's next step after the World is gone. *)
Definition step_after_destroy : list (event R) :=
  destroyed_while_generating ++ [WorkerStep].

(** ** Invariants of particular executions *)

(** After a start without observation point the worker is about to return
    or has returned, and no later start can replace it. *)
Definition worker_never_builds {H M V P : Type} (m : Machine H M V P) : Prop :=
  (worker m = AtEntry NullObservation \/ worker m = Returned)
  /\ (worldGenerationThread (world m) = true \/ destroyed m = true).

(** The coordinates the scenario's worker visits. *)
Definition small_ring : list (Z * Z) := [(-16, -16); (-16, 0); (0, -16); (0, 0)].

Definition small_ring_worker (w : worker_state) : Prop :=
  match w with
  | NotSpawned => False
  | InRing px pz x z => px = 0 /\ pz = 0 /\ (x = -1 \/ x = 0) /\ (z = -1 \/ z = 0)
  | _ => True
  end.

Definition small_ring_inv (s : Skeleton) : Prop :=
  Forall (fun c => c ∈ small_ring) (chunk_coords s)
  /\ Forall (fun c => c ∈ small_ring) (queue_coords s)
  /\ small_ring_worker (worker s)
  /\ vx (observation s) = 0 /\ vz (observation s) = 0.

(** The skeleton once the four chunks of the scenario are registered, with
    the worker at [w]. *)
Definition settled_skeleton (w : worker_state) : Skeleton :=
  MkMachine
    (MkWorld [ Chunk (-16) (-16) tt (Some tt) 0; Chunk (-16) 0 tt (Some tt) 1;
               Chunk 0 (-16) tt (Some tt) 2; Chunk 0 0 tt (Some tt) 3 ]
             [] [] [] true)
    false w (Vec3 0 0 0) []
    [ (HeightMapBlock, 0); (ChunkBlock, 0); (ImmatureBlock, 0);
      (HeightMapBlock, 1); (ChunkBlock, 1); (ImmatureBlock, 1);
      (HeightMapBlock, 2); (ChunkBlock, 2); (ImmatureBlock, 2);
      (HeightMapBlock, 3); (ChunkBlock, 3); (ImmatureBlock, 3);
      (MeshBlock, 0); (MeshBlock, 1); (MeshBlock, 2); (MeshBlock, 3) ]
    small_ring None.

Definition settled_workers : list worker_state :=
  [ AtLoopHead; InRing 0 0 (-1) (-1); InRing 0 0 (-1) 0;
    InRing 0 0 0 (-1); InRing 0 0 0 0 ].

(** ** Ownership of the heap blocks *)

(** Ranks of the registered and of the queued chunks. *)
Definition chunk_serials {H M V P : Type} (m : Machine H M V P) : list Z :=
  map chunk_serial (chunks (world m)).

Definition queue_serials {H M V P : Type} (m : Machine H M V P) : list Z :=
  map (fun d => chunk_serial (chunk d)) (chunkMeshGenerationQueue (world m)).

(** The blocks that are allocated when [n] builds have run, the chunks of
    rank [registered] have been given their mesh and those of rank [queued]
    still wait in the queue: the queue record of every build; height grid,
    chunk and mesh of a registered chunk; height grid, chunk and mesh data of
    a queued chunk. *)
Definition owned_block (registered queued : list Z) (n : Z) (b : block) : Prop :=
  (fst b = ImmatureBlock /\ 0 <= snd b < n)
  \/ (snd b ∈ registered
      /\ (fst b = HeightMapBlock \/ fst b = ChunkBlock \/ fst b = MeshBlock))
  \/ (snd b ∈ queued
      /\ (fst b = HeightMapBlock \/ fst b = IndicesBlock \/ fst b = VerticesBlock
          \/ fst b = ChunkBlock \/ fst b = VboDataBlock)).

(** What stays allocated after the destructor. *)
Definition leaked_block (queued : list Z) (n : Z) (b : block) : Prop :=
  (fst b = ImmatureBlock /\ 0 <= snd b < n)
  \/ (fst b = HeightMapBlock /\ snd b ∈ queued).

(** The hand-off between the two threads, while the World exists. *)
Definition handoff_inv {H M V P : Type} (m : Machine H M V P) : Prop :=
  destroyed m = false ->
  chunk_coords m ++ queue_coords m = builds m
  /\ chunk_serials m ++ queue_serials m = seqZ 0 (Z.of_nat (length (builds m)))
  /\ (forall b, b ∈ heap m <->
                owned_block (chunk_serials m) (queue_serials m)
                            (Z.of_nat (length (builds m))) b).

(** Registered chunks have their mesh, queued chunks have none yet. *)
Definition mesh_inv {H M V P : Type} (m : Machine H M V P) : Prop :=
  Forall (fun c => is_Some (mesh c)) (chunks (world m))
  /\ Forall (fun d => mesh (chunk d) = None) (chunkMeshGenerationQueue (world m)).

(** The only fault of an execution is the worker's use of a destroyed World. *)
Definition fault_ok {H M V P : Type} (m : Machine H M V P) : Prop :=
  fault m = None \/ (fault m = Some UseAfterFree /\ destroyed m = true).

(** A schedule in which every worker step is followed by a frame before the
    worker steps again; the observation point may move in between. *)
Definition lockstep_events {P : Type} (moves : list (option (vec3 P)))
  : list (event P) :=
  flat_map (fun o => match o with
                     | Some p => [MoveObservation p]
                     | None => [WorkerStep; Render]
                     end) moves.

(** Between two rounds of a lockstep schedule the queue is empty and the
    registry is the list of the builds, which has no duplicate. *)
Definition lockstep_inv {H M V P : Type} (m : Machine H M V P) : Prop :=
  destroyed m = false
  /\ chunkMeshGenerationQueue (world m) = []
  /\ chunk_coords m = builds m
  /\ NoDup (builds m).

(** ** One pass of the worker over the ring *)

(** The coordinate the worker requests for the offsets [x] and [z]. *)
Definition ring_coord (CS px pz x z : Z) : Z * Z :=
  (Int32.add px (Int32.mul x CS), Int32.add pz (Int32.mul z CS)).

(** The ring around [(px, pz)] in the order of the two loops: the offsets
    from [-r] to [r - 1], x outermost. *)
Definition ring_coords (CS r px pz : Z) : list (Z * Z) :=
  flat_map (fun x => map (ring_coord CS px pz x) (seqZ (- r) (2 * r)))
           (seqZ (- r) (2 * r)).

(** Whether [generateChunk] goes on to build for the coordinate [c]. *)
Definition unregistered {H V : Type} (cs : list (chunk_t H V)) (c : Z * Z) : bool :=
  negb (registered (fst c) (snd c) cs).

(** The state of a pass that started at [m0] and has visited [visited], no
    frame having been rendered since. *)
Definition pass_inv {H M V P : Type} (m0 m : Machine H M V P)
    (visited : list (Z * Z)) : Prop :=
  chunks (world m) = chunks (world m0)
  /\ destroyed m = false /\ fault m = None
  /\ builds m = builds m0 ++ filter (fun c => unregistered (chunks (world m0)) c = true) visited
  /\ queue_coords m
     = queue_coords m0
       ++ filter (fun c => unregistered (chunks (world m0)) c = true) visited.

(** ** Small executions of the skeleton *)

(** Start, two chunks built, one of them rendered. *)
Definition short_schedule : list (event Z) :=
  [ StartWorldGeneration ObservationRef;
    WorkerStep; WorkerStep; WorkerStep; WorkerStep; Render ].

Definition short_run : Skeleton :=
  skeleton_run 16 source_limits (fresh_machine (Vec3 0 0 0)) short_schedule.

(** A skeleton whose worker stands at the loop head, nothing registered. *)
Definition at_loop_head : Skeleton :=
  MkMachine (MkWorld [] [] [] [] true) false AtLoopHead (Vec3 0 0 0) [] [] [] None.

(** A skeleton with one registered chunk and the worker at the loop head. *)
Definition one_chunk_registered : Skeleton :=
  MkMachine (MkWorld [Chunk 0 0 tt (Some tt) 0] [] [] [] true) false AtLoopHead
            (Vec3 0 0 0) [] [(HeightMapBlock, 0); (ChunkBlock, 0);
                              (ImmatureBlock, 0); (MeshBlock, 0)]
            [(0, 0)] None.

(** A skeleton that is generating and holds a drawable and a world object. *)
Definition generating_with_drawable : Skeleton :=
  MkMachine (MkWorld [] [] [7%nat] [3%nat] true) false AtLoopHead (Vec3 0 0 0)
            [] [] [] None.

(** No chunk may be registered at all. *)
Definition no_chunk_limits : Limits :=
  {| chunk_generation_radius := 1; chunk_ceiling := 0; object_ceiling := 100 |}.

(** ** The range of the heights *)

(** The sum of the amplitudes of an octave table. *)
Definition amplitude_sum (octaves : list (Q * Q)) : Q :=
  fold_right (fun octave acc => (snd octave + acc)%Q) 0%Q octaves.

(** * Verification *)

(** ** Machine integers *)

Lemma wrap32_id (n : Z) : Int32.in_range n -> Int32.wrap32 n = n.
Proof.
  unfold Int32.in_range, Int32.min_int, Int32.max_int, Int32.wrap32.
  intros Hn. rewrite Z.mod_small; lia.
Qed.

Lemma wrap32_in_range (n : Z) : Int32.in_range (Int32.wrap32 n).
Proof.
  unfold Int32.in_range, Int32.min_int, Int32.max_int, Int32.wrap32.
  pose proof (Z.mod_pos_bound (n + 2 ^ 31) (2 ^ 32) ltac:(lia)). lia.
Qed.

Lemma int_add_id (a b : Z) : Int32.in_range (a + b) -> Int32.add a b = a + b.
Proof. apply wrap32_id. Qed.

Lemma int_mul_id (a b : Z) : Int32.in_range (a * b) -> Int32.mul a b = a * b.
Proof. apply wrap32_id. Qed.

(** Division truncating toward zero, by a positive divisor. *)
Lemma Zquot_nonneg_bounds (n d : Z) :
  0 < d -> 0 <= n -> 0 <= n ÷ d /\ d * (n ÷ d) <= n < d * (n ÷ d) + d.
Proof.
  intros Hd Hn.
  pose proof (Z.quot_rem' n d) as Hqr.
  pose proof (Z.rem_bound_pos n d Hn Hd) as Hr.
  pose proof (Z.quot_pos n d Hn Hd) as Hq.
  lia.
Qed.

Lemma Zquot_neg_bounds (n d : Z) :
  0 < d -> n < 0 -> n ÷ d <= 0 /\ d * (n ÷ d) - d < n <= d * (n ÷ d).
Proof.
  intros Hd Hn.
  destruct (Zquot_nonneg_bounds (- n) d Hd ltac:(lia)) as [Hq Hb].
  rewrite Z.quot_opp_l in Hq, Hb by lia. lia.
Qed.

(** ** Truncation of rationals *)

Lemma Qtrunc_nonneg (p : Q) :
  (0 <= p)%Q ->
  0 <= Qtrunc p /\ (inject_Z (Qtrunc p) <= p)%Q /\ (p < inject_Z (Qtrunc p + 1))%Q.
Proof.
  destruct p as [n d]. unfold Qle, Qlt, Qtrunc, inject_Z. simpl. intros Hn.
  destruct (Zquot_nonneg_bounds n (Z.pos d) ltac:(lia) ltac:(lia)) as [Hq Hb].
  repeat split; nia.
Qed.

Lemma Qtrunc_neg (p : Q) :
  (p < 0)%Q ->
  Qtrunc p <= 0 /\ (inject_Z (Qtrunc p - 1) < p)%Q /\ (p <= inject_Z (Qtrunc p))%Q.
Proof.
  destruct p as [n d]. unfold Qle, Qlt, Qtrunc, inject_Z. simpl. intros Hn.
  destruct (Zquot_neg_bounds n (Z.pos d) ltac:(lia) ltac:(lia)) as [Hq Hb].
  repeat split; nia.
Qed.

(** ** Grid alignment: [chunk_align] *)

Lemma chunk_align_exact (CS p : Z) :
  0 < CS -> Int32.in_range p -> chunk_align CS p = CS * (p ÷ CS).
Proof.
  intros HCS Hp. unfold chunk_align, Int32.div, Int32.mul.
  unfold Int32.in_range, Int32.min_int, Int32.max_int in Hp.
  destruct (Z_lt_le_dec p 0) as [Hneg | Hpos].
  - destruct (Zquot_neg_bounds p CS HCS Hneg) as [Hq Hb].
    rewrite (wrap32_id (p ÷ CS)), wrap32_id;
      unfold Int32.in_range, Int32.min_int, Int32.max_int; nia.
  - destruct (Zquot_nonneg_bounds p CS HCS Hpos) as [Hq Hb].
    rewrite (wrap32_id (p ÷ CS)), wrap32_id;
      unfold Int32.in_range, Int32.min_int, Int32.max_int; nia.
Qed.

(** C7, as the code has it: the centre of one axis is [CHUNK_SIZE] times the
    quotient, truncated toward zero, of the truncated position; it is the
    greatest multiple of [CHUNK_SIZE] not exceeding a non-negative position
    and the least multiple not below a negative one. *)
Theorem center_axis_truncates (CS : Z) (p : Q) :
  0 < CS -> Int32.in_range (Qtrunc p) ->
  center_axis CS p = CS * (Qtrunc p ÷ CS)
  /\ ((0 <= p)%Q -> is_floor_multiple CS p (center_axis CS p))
  /\ ((p < 0)%Q -> is_ceiling_multiple CS p (center_axis CS p)).
Proof.
  intros HCS Hr. unfold center_axis. simpl to_int.
  rewrite (chunk_align_exact CS (Qtrunc p) HCS Hr).
  split; [reflexivity |]. split; intros Hp.
  - destruct (Qtrunc_nonneg p Hp) as (Ht & Hlo & Hhi).
    destruct (Zquot_nonneg_bounds (Qtrunc p) CS HCS Ht) as [_ Hb].
    unfold is_floor_multiple. split; [apply Z.divide_factor_l |]. split.
    + eapply Qle_trans; [| exact Hlo]. rewrite <- Zle_Qle. lia.
    + eapply Qlt_le_trans; [exact Hhi |]. rewrite <- Zle_Qle. lia.
  - destruct (Qtrunc_neg p Hp) as (Ht & Hlo & Hhi).
    unfold is_ceiling_multiple. split; [apply Z.divide_factor_l |].
    destruct (Z.eq_dec (Qtrunc p) 0) as [H0 | H0].
    + rewrite H0 in *. rewrite Z.quot_0_l by lia. split.
      * eapply Qle_lt_trans; [| exact Hlo]. rewrite <- Zle_Qle. lia.
      * eapply Qle_trans; [exact Hhi |]. rewrite <- Zle_Qle. lia.
    + destruct (Zquot_neg_bounds (Qtrunc p) CS HCS ltac:(lia)) as [_ Hb]. split.
      * eapply Qle_lt_trans; [| exact Hlo]. rewrite <- Zle_Qle. lia.
      * eapply Qle_trans; [exact Hhi |]. rewrite <- Zle_Qle. lia.
Qed.

Lemma center_axis_truncates_witness :
  center_axis 16 (- 37 # 2)%Q = 16 * (Qtrunc (- 37 # 2) ÷ 16)
  /\ ((0 <= - 37 # 2)%Q -> is_floor_multiple 16 (- 37 # 2) (center_axis 16 (- 37 # 2)%Q))
  /\ ((- 37 # 2 < 0)%Q -> is_ceiling_multiple 16 (- 37 # 2) (center_axis 16 (- 37 # 2)%Q)).
Proof.
  apply (center_axis_truncates 16 (- 37 # 2)).
  - lia.
  - vm_compute. split; discriminate.
Defined.

(** C7, as stated, fails below zero: for the position -1 the centre is 0,
    which exceeds the position. *)
Lemma center_axis_negative_not_floor :
  center_axis 16 (- 1 # 1)%Q = 0
  /\ ~ is_floor_multiple 16 (- 1 # 1) (center_axis 16 (- 1 # 1)%Q).
Proof.
  split; [reflexivity |].
  intros (_ & Hle & _). revert Hle. vm_compute. intros Hc. apply Hc. reflexivity.
Qed.

(** ** The subscript of the biome table *)

Lemma Qtrunc_unique (q : Q) (n : Z) :
  (inject_Z n <= q)%Q -> (q < inject_Z (n + 1))%Q -> 0 <= n -> Qtrunc q = n.
Proof.
  intros Hlo Hhi Hn.
  assert (Hq : (0 <= q)%Q).
  { eapply Qle_trans; [| exact Hlo]. change (inject_Z 0 <= inject_Z n)%Q. rewrite <- Zle_Qle. exact Hn. }
  destruct (Qtrunc_nonneg q Hq) as (_ & Hlo' & Hhi').
  assert (H1 : (inject_Z n < inject_Z (Qtrunc q + 1))%Q)
    by (eapply Qle_lt_trans; eassumption).
  assert (H2 : (inject_Z (Qtrunc q) < inject_Z (n + 1))%Q)
    by (eapply Qle_lt_trans; eassumption).
  rewrite <- Zlt_Qlt in H1, H2. lia.
Qed.

Lemma getBiomeNoise_Q (T : Terrain Q) (x z : Q) :
  (getBiomeNoise T x z == (noise T (x / 100) (z / 100) + 1) / 2)%Q.
Proof. unfold getBiomeNoise. simpl. reflexivity. Qed.

(** The subscript at biome noise 1. *)
Lemma biome_index_at_one (T : Terrain Q) (b : Q) :
  0 < CHUNK_BIOME_COUNT T -> (b == 1)%Q -> biome_index T b = CHUNK_BIOME_COUNT T.
Proof.
  intros HC Heq. unfold biome_index. simpl fmul. simpl of_int. simpl to_int.
  apply Qtrunc_unique; [| | lia].
  - rewrite Heq, Qmult_1_l. apply Qle_refl.
  - rewrite Heq, Qmult_1_l. rewrite <- Zlt_Qlt. lia.
Qed.

(** C10: with the raw noise in [-1, 1] the biome noise lies in [0, 1]; below
    1 the subscript is inside the table, at 1 it is [CHUNK_BIOME_COUNT], one
    past the last element.  The biome noise is 1 exactly where the raw noise
    is 1, and this is attained: a noise within [-1, 1] and an input exist,
    for the same constants, at which the biome noise is 1 and the subscript
    is [CHUNK_BIOME_COUNT]. *)
Theorem biome_index_bounds (T : Terrain Q) (x z : Q) :
  0 < CHUNK_BIOME_COUNT T ->
  (forall a b : Q, (- (1) <= noise T a b <= 1)%Q) ->
  (0 <= getBiomeNoise T x z <= 1)%Q
  /\ ((getBiomeNoise T x z < 1)%Q ->
      0 <= biome_index T (getBiomeNoise T x z) < CHUNK_BIOME_COUNT T)
  /\ ((getBiomeNoise T x z == 1)%Q ->
      biome_index T (getBiomeNoise T x z) = CHUNK_BIOME_COUNT T)
  /\ ((getBiomeNoise T x z == 1)%Q <-> (noise T (x / 100) (z / 100) == 1)%Q)
  /\ (exists (n : Q -> Q -> Q) (x' z' : Q),
        (forall a b : Q, (- (1) <= n a b <= 1)%Q)
        /\ (getBiomeNoise (with_noise T n) x' z' == 1)%Q
        /\ biome_index (with_noise T n) (getBiomeNoise (with_noise T n) x' z')
           = CHUNK_BIOME_COUNT T).
Proof.
  intros HC Hn.
  pose proof (getBiomeNoise_Q T x z) as Hb.
  specialize (Hn (x / 100)%Q (z / 100)%Q).
  set (b := getBiomeNoise T x z) in *.
  set (n := noise T (x / 100)%Q (z / 100)%Q) in *.
  assert (Hb01 : (0 <= b <= 1)%Q).
  { rewrite Hb. split.
    - apply Qle_shift_div_l; lra.
    - apply Qle_shift_div_r; lra. }
  split; [exact Hb01 |].
  split.
  - intros Hlt. unfold biome_index. simpl fmul. simpl of_int. simpl to_int.
    set (C := CHUNK_BIOME_COUNT T) in *.
    assert (HCq : (0 < inject_Z C)%Q)
      by (change (inject_Z 0 < inject_Z C)%Q; rewrite <- Zlt_Qlt; exact HC).
    assert (Hprod : (0 <= b * inject_Z C)%Q).
    { apply Qmult_le_0_compat; [apply Hb01 | apply Qlt_le_weak, HCq]. }
    destruct (Qtrunc_nonneg _ Hprod) as (H0 & Hlo & _).
    split; [exact H0 |].
    assert (Hlt' : (b * inject_Z C < inject_Z C)%Q).
    { rewrite <- (Qmult_1_l (inject_Z C)) at 2.
      apply Qmult_lt_compat_r; assumption. }
    assert (Hz : (inject_Z (Qtrunc (b * inject_Z C)) < inject_Z C)%Q)
      by (eapply Qle_lt_trans; eassumption).
    rewrite <- Zlt_Qlt in Hz. exact Hz.
  - split; [intros Heq; apply biome_index_at_one; assumption |].
    split.
    + rewrite Hb. split; intros Heq.
      * assert (H2 : ((n + 1) / 2 * 2 == n + 1)%Q) by (field).
        rewrite Heq in H2. lra.
      * rewrite Heq. reflexivity.
    + exists (fun _ _ => 1%Q), 0%Q, 0%Q.
      split; [intros _ _; split; discriminate |].
      split; [reflexivity |].
      apply (biome_index_at_one (with_noise T (fun _ _ => 1%Q)));
        [exact HC | reflexivity].
Qed.

(** A noise sample of 1 meets the hypotheses: there the biome noise is 1 and
    the subscript is [CHUNK_BIOME_COUNT], outside the table. *)
Lemma biome_index_bounds_witness :
  (getBiomeNoise (constant_terrain 1) 0%Q 0%Q == 1)%Q
  /\ biome_index (constant_terrain 1) (getBiomeNoise (constant_terrain 1) 0%Q 0%Q)
     = CHUNK_BIOME_COUNT (constant_terrain 1)
  /\ ~ (0 <= biome_index (constant_terrain 1)
                          (getBiomeNoise (constant_terrain 1) 0%Q 0%Q)
         < Z.of_nat (length (BIOME_HEIGHT_SCALING_FACTORS (constant_terrain 1)))).
Proof.
  destruct (biome_index_bounds (constant_terrain 1) 0%Q 0%Q)
    as (_ & _ & Hat & Hiff & _).
  - simpl. lia.
  - intros a b. simpl. split; discriminate.
  - assert (Hone : (getBiomeNoise (constant_terrain 1) 0%Q 0%Q == 1)%Q)
      by (apply Hiff; reflexivity).
    split; [exact Hone |].
    split; [exact (Hat Hone) |].
    rewrite (Hat Hone). simpl. lia.
Defined.

(** ** The height function *)

Section HeightFormula.
Context {F : Type} `{FloatOps F}.
Variable T : Terrain F.

Lemma octave_loop_app (x z : F) (l1 l2 : list (F * F)) (acc : F) :
  octave_loop T x z (l1 ++ l2) acc = octave_loop T x z l2 (octave_loop T x z l1 acc).
Proof. unfold octave_loop. apply fold_left_app. Qed.

Lemma octave_loop_sum (x z : F) (octaves : list (F * F)) :
  octave_loop T x z octaves (flit 0) = octave_sum T x z octaves.
Proof.
  unfold octave_sum.
  induction octaves as [| o os IH] using rev_ind.
  - reflexivity.
  - rewrite octave_loop_app, rev_app_distr. simpl. rewrite <- IH. reflexivity.
Qed.

(** C5, as the code has it: the height is the band's scaling constant times
    the biome noise itself, times the octave sum scaled by the maximum
    height, all sampled at a tenth of the coordinates. *)
Theorem getChunkHeight_formula (x z : F) :
  getChunkHeight T x z
  = fmul (fmul (array_read T (BIOME_HEIGHT_SCALING_FACTORS T)
                           (biome_index T (getBiomeNoise T (fdiv x (flit 10))
                                                          (fdiv z (flit 10)))))
               (getBiomeNoise T (fdiv x (flit 10)) (fdiv z (flit 10))))
         (fmul (octave_sum T (fdiv x (flit 10)) (fdiv z (flit 10))
                           (CHUNK_GENERATION_OCTAVES T))
               (CHUNK_GENERATION_MAX_HEIGHT T)).
Proof. unfold getChunkHeight. rewrite octave_loop_sum. reflexivity. Qed.

End HeightFormula.

(** In exact arithmetic the height is the documented product times one more
    factor, the biome noise. *)
Lemma getChunkHeight_extra_factor (T : Terrain Q) (x z : Q) :
  (getChunkHeight T x z
   == height_as_documented T x z * getBiomeNoise T (x / 10) (z / 10))%Q.
Proof.
  unfold getChunkHeight, height_as_documented. cbv zeta.
  rewrite octave_loop_sum. simpl. ring.
Qed.

(** C5, as stated, fails: for a noise that is 1/2 everywhere the height at
    the origin is 15/4, the documented product is 5. *)
Lemma getChunkHeight_not_as_documented :
  (getChunkHeight (constant_terrain (1 # 2)) 0 0 == 15 # 4)%Q
  /\ (height_as_documented (constant_terrain (1 # 2)) 0 0 == 5)%Q
  /\ ~ (getChunkHeight (constant_terrain (1 # 2)) 0 0
        == height_as_documented (constant_terrain (1 # 2)) 0 0)%Q.
Proof.
  split; [reflexivity |]. split; [reflexivity |].
  intros Heq. vm_compute in Heq. discriminate Heq.
Qed.

(** ** The normal vector *)

Lemma dot_self_nonneg (v : vec3 R) : (0 <= dot v v)%R.
Proof. unfold dot. nra. Qed.

Lemma glm_normalize_unit (v : vec3 R) :
  (0 < dot v v)%R -> glm_length (glm_normalize v) = 1%R.
Proof.
  intros Hd. unfold glm_length.
  assert (Hs : (0 < sqrt (dot v v))%R) by (apply sqrt_lt_R0; exact Hd).
  assert (Hk : dot (glm_normalize v) (glm_normalize v) = 1%R).
  { unfold glm_normalize. unfold dot at 1. simpl.
    set (k := (/ sqrt (dot v v))%R).
    replace (vx v * k * (vx v * k) + vy v * k * (vy v * k) + vz v * k * (vz v * k))%R
      with (dot v v * (k * k))%R by (unfold dot; ring).
    unfold k. rewrite <- Rinv_mult, sqrt_sqrt by lra.
    apply Rinv_r. lra. }
  rewrite Hk. apply sqrt_1.
Qed.

Lemma Q2R_two : Q2R 2 = 2%R.
Proof. unfold Q2R. simpl. lra. Qed.

(** C6: the normal is the normalised vector of the symmetric height
    differences, and at the origin it has length 1. *)
Theorem getNormalVector_unit (T : Terrain R) (x z : R) :
  CHUNK_GENERATION_NORMAL_DELTA T <> 0%R ->
  let h := getChunkHeight T in
  let delta := CHUNK_GENERATION_NORMAL_DELTA T in
  getNormalVector T glm_normalize x z
  = glm_normalize (Vec3 (h (x - delta) z - h (x + delta) z)
                        (2 * delta)
                        (h x (z - delta) - h x (z + delta)))%R
  /\ glm_length (getNormalVector T glm_normalize 0%R 0%R) = 1%R.
Proof.
  intros Hdelta h delta. split.
  - unfold getNormalVector. simpl. rewrite Q2R_two. reflexivity.
  - unfold getNormalVector. apply glm_normalize_unit.
    unfold dot. cbn [vx vy vz].
    set (a := fsub _ _). set (c := fsub _ _).
    change (fmul (flit 2) (CHUNK_GENERATION_NORMAL_DELTA T))
      with (Q2R 2 * delta)%R.
    rewrite Q2R_two.
    assert (Hsq : (0 < delta * delta)%R).
    { destruct (Rtotal_order delta 0) as [Hlt | [Heq | Hgt]];
        [nra | contradiction | nra]. }
    pose proof (Rle_0_sqr a) as Ha. pose proof (Rle_0_sqr c) as Hc.
    unfold Rsqr in Ha, Hc. nra.
Qed.

Lemma getNormalVector_unit_witness :
  let h := getChunkHeight flat_terrain in
  let delta := CHUNK_GENERATION_NORMAL_DELTA flat_terrain in
  getNormalVector flat_terrain glm_normalize 3%R 4%R
  = glm_normalize (Vec3 (h (3 - delta) 4 - h (3 + delta) 4)
                        (2 * delta)
                        (h 3 (4 - delta) - h 3 (4 + delta)))%R
  /\ glm_length (getNormalVector flat_terrain glm_normalize 0%R 0%R) = 1%R.
Proof.
  apply (getNormalVector_unit flat_terrain 3%R 4%R).
  simpl. unfold Q2R. simpl. lra.
Defined.

(** ** The chunk builder *)

Lemma length_filled {A : Type} (N : nat) (l : list A) :
  (length l <= N)%nat -> length (filled N l) = N.
Proof.
  intros Hl. unfold filled.
  rewrite length_app, length_map, length_replicate. lia.
Qed.

Lemma filled_full {A : Type} (l : list A) : filled (length l) l = map Some l.
Proof.
  unfold filled. rewrite Nat.sub_diag. simpl. apply app_nil_r.
Qed.

(** Writing the first unwritten cell extends the written prefix. *)
Lemma store_filled {A : Type} (N : nat) (l : list A) (v : A) :
  (length l < N)%nat ->
  store (filled N l) (Z.of_nat (length l)) v = Some (filled N (l ++ [v])).
Proof.
  intros Hl. unfold store.
  rewrite length_filled by lia.
  destruct (decide _) as [_ | Hno]; [| lia].
  f_equal. unfold filled. rewrite Nat2Z.id.
  rewrite insert_app_r_alt by (rewrite length_map; lia).
  rewrite length_map, Nat.sub_diag.
  replace (N - length l)%nat with (S (N - length (l ++ [v])))
    by (rewrite length_app; simpl; lia).
  simpl. rewrite map_app. simpl. rewrite <- app_assoc. reflexivity.
Qed.

Lemma store_filled_at {A : Type} (N : nat) (l : list A) (i : Z) (v : A) :
  i = Z.of_nat (length l) -> (length l < N)%nat ->
  store (filled N l) i v = Some (filled N (l ++ [v])).
Proof. intros ->. apply store_filled. Qed.

Lemma length_flat_map_const {A B : Type} (f : A -> list B) (k : nat) (l : list A) :
  (forall a, a ∈ l -> length (f a) = k) -> length (flat_map f l) = (length l * k)%nat.
Proof.
  induction l as [| a l IH]; intros Hk; simpl; [reflexivity |].
  rewrite length_app, Hk by left.
  rewrite IH; [reflexivity |]. intros b Hb. apply Hk. right. exact Hb.
Qed.

Ltac range_solve :=
  unfold Int32.in_range, Int32.min_int, Int32.max_int in *; nia.

Section BuilderProofs.
Context {F : Type} `{FloatOps F}.
Variable T : Terrain F.
Variable normalize : vec3 F -> vec3 F.
Variables x z : Z.

Local Abbreviation CS := (CHUNK_SIZE T).

Hypothesis HCS : 0 < CS.
Hypothesis Hmax : CS * CS * 6 <= Int32.max_int.

Local Abbreviation Nv := (Z.to_nat ((CS + 1) * (CS + 1))).
Local Abbreviation Nd := (Z.to_nat (CS * CS)).
Local Abbreviation Ni := (Z.to_nat (CS * CS * 6)).
Local Abbreviation state_of := (written_state T).
Local Abbreviation row_heights := (row_heights_from T normalize x z).
Local Abbreviation row_triangles := (row_triangles_from (CHUNK_SIZE T)).

Lemma mesh_width_eq : mesh_width T = CS + 1.
Proof. unfold mesh_width. cbv zeta. apply int_add_id. range_solve. Qed.

Lemma the_indices_count_eq : the_indices_count T = CS * CS * 6.
Proof.
  unfold the_indices_count. cbv zeta.
  rewrite (int_mul_id CS CS) by range_solve. apply int_mul_id. range_solve.
Qed.

Lemma build_init_eq : build_init T = state_of [] [] [].
Proof.
  unfold build_init. cbv zeta.
  rewrite the_indices_count_eq, mesh_width_eq.
  unfold written_state, malloc, filled. simpl. rewrite !Nat.sub_0_r. reflexivity.
Qed.

Lemma top_left_eq (i j : Z) :
  0 <= i < CS -> 0 <= j < CS -> top_left T i j = i * (CS + 1) + j.
Proof.
  intros Hi Hj. unfold top_left. rewrite mesh_width_eq.
  rewrite (int_mul_id i) by range_solve. apply int_add_id. range_solve.
Qed.

Lemma top_right_eq (i j : Z) :
  0 <= i < CS -> 0 <= j < CS -> top_right T i j = i * (CS + 1) + (j + 1).
Proof.
  intros Hi Hj. unfold top_right. rewrite mesh_width_eq.
  rewrite (int_mul_id i), (int_add_id j) by range_solve.
  apply int_add_id. range_solve.
Qed.

Lemma bottom_left_eq (i j : Z) :
  0 <= i < CS -> 0 <= j < CS -> bottom_left T i j = (i + 1) * (CS + 1) + j.
Proof.
  intros Hi Hj. unfold bottom_left. rewrite mesh_width_eq.
  rewrite (int_add_id i) by range_solve.
  rewrite (int_mul_id (i + 1)) by range_solve. apply int_add_id. range_solve.
Qed.

Lemma bottom_right_eq (i j : Z) :
  0 <= i < CS -> 0 <= j < CS -> bottom_right T i j = (i + 1) * (CS + 1) + (j + 1).
Proof.
  intros Hi Hj. unfold bottom_right. rewrite mesh_width_eq.
  rewrite (int_add_id i), (int_add_id j) by range_solve.
  rewrite (int_mul_id (i + 1)) by range_solve. apply int_add_id. range_solve.
Qed.

Lemma push_index_ok (k : Z) (V : list (vertex_t F)) (D : list F) (I : list Z) :
  (length I < Ni)%nat ->
  push_index k (state_of V D I) = Some (state_of V D (I ++ [k])).
Proof.
  intros HI. unfold push_index, written_state.
  cbn [b_indices indices_index data_points b_vertices vertices_index].
  rewrite store_filled by exact HI. cbn [mbind option_bind].
  rewrite int_add_id by range_solve.
  rewrite length_app. cbn [length]. do 3 f_equal. lia.
Qed.

Lemma cell_body_core (i j : Z) (V : list (vertex_t F)) (D : list F) (I : list Z) :
  0 <= i < CS -> 0 <= j < CS ->
  (length V < Nv)%nat ->
  Z.of_nat (length D) = i * CS + j ->
  (length I = 6 * length D)%nat ->
  cell_body T normalize x z i j (state_of V D I)
  = Some (state_of (V ++ [grid_vertex T normalize x z i j])
                   (D ++ [v_y F (grid_vertex T normalize x z i j)])
                   (I ++ cell_triangles CS i j)).
Proof.
  intros Hi Hj HV HD HI. unfold cell_body. cbv zeta.
  unfold written_state. cbv zeta.
  cbn [b_indices indices_index data_points b_vertices vertices_index].
  rewrite store_filled by exact HV. cbn [mbind option_bind].
  destruct (Z.ltb_spec i CS) as [_ | ?]; [| lia].
  destruct (Z.ltb_spec j CS) as [_ | ?]; [| lia].
  cbn [andb].
  rewrite (int_mul_id i CS) by range_solve.
  rewrite (int_add_id (i * CS) j) by range_solve.
  rewrite (store_filled_at Nd D (i * CS + j)) by (lia || nia).
  cbn [mbind option_bind].
  rewrite (int_add_id (Z.of_nat (length V)) 1) by range_solve.
  replace (Z.of_nat (length V) + 1) with
    (Z.of_nat (length (V ++ [grid_vertex T normalize x z i j])))
    by (rewrite length_app; simpl; lia).
  change (BuildState (filled Nd ?d) (filled Ni ?k) (filled Nv ?v)
                     (Z.of_nat (length ?k)) (Z.of_nat (length ?v)))
    with (state_of v d k).
  rewrite top_left_eq, top_right_eq, bottom_left_eq, bottom_right_eq by assumption.
  assert (HIn : (length I + 6 <= Ni)%nat) by nia.
  rewrite push_index_ok by lia. cbn [mbind option_bind].
  rewrite push_index_ok by (rewrite !length_app; simpl; lia).
  cbn [mbind option_bind].
  rewrite push_index_ok by (rewrite !length_app; simpl; lia).
  cbn [mbind option_bind].
  rewrite push_index_ok by (rewrite !length_app; simpl; lia).
  cbn [mbind option_bind].
  rewrite push_index_ok by (rewrite !length_app; simpl; lia).
  cbn [mbind option_bind].
  rewrite push_index_ok by (rewrite !length_app; simpl; lia).
  unfold cell_triangles, written_state. cbv zeta.
  rewrite <- !app_assoc. reflexivity.
Qed.

Lemma cell_body_edge (i j : Z) (V : list (vertex_t F)) (D : list F) (I : list Z) :
  i = CS \/ j = CS ->
  (length V < Nv)%nat ->
  cell_body T normalize x z i j (state_of V D I)
  = Some (state_of (V ++ [grid_vertex T normalize x z i j]) D I).
Proof.
  intros Hij HV. unfold cell_body. cbv zeta.
  unfold written_state. cbv zeta.
  cbn [b_indices indices_index data_points b_vertices vertices_index].
  rewrite store_filled by exact HV. cbn [mbind option_bind].
  replace ((i <? CS) && (j <? CS)) with false.
  2:{ symmetry. apply andb_false_iff.
      destruct Hij as [-> | ->]; [left | right]; apply Z.ltb_irrefl. }
  rewrite (int_add_id (Z.of_nat (length V)) 1) by range_solve.
  rewrite length_app. cbn [length]. do 3 f_equal. lia.
Qed.


Lemma row_heights_length (i j : Z) :
  0 <= j <= CS -> i < CS -> Z.of_nat (length (row_heights i j)) = CS - j.
Proof.
  intros Hj Hi. unfold row_heights_from. rewrite decide_True by exact Hi.
  rewrite length_map, length_seqZ. lia.
Qed.

Lemma row_triangles_length (i j : Z) :
  length (row_triangles i j) = (6 * length (row_heights i j))%nat.
Proof.
  unfold row_triangles_from, row_heights_from. destruct (decide (i < CS)); [| reflexivity].
  rewrite length_map.
  rewrite (length_flat_map_const _ 6) by (intros; reflexivity). lia.
Qed.

(** The inner loop, from column [j] to the end of row [i]. *)
Lemma inner_loop (i : Z) (Hi : 0 <= i <= CS) :
  forall (n : nat) (j : Z) (V : list (vertex_t F)) (D : list F) (I : list Z),
    0 <= j -> j + Z.of_nat n = CS + 1 ->
    (length V + n <= Nv)%nat ->
    (i < CS -> Z.of_nat (length D) = i * CS + Z.min j CS) ->
    (length I = 6 * length D)%nat ->
    for_up n j (cell_body T normalize x z i) (state_of V D I)
    = Some (state_of (V ++ map (grid_vertex T normalize x z i) (seqZ j (Z.of_nat n)))
                     (D ++ row_heights i j) (I ++ row_triangles i j)).
Proof.
  induction n as [| n IH]; intros j V D I Hj Hn HV HD HI.
  - cbn [for_up]. unfold row_heights_from, row_triangles_from.
    rewrite !(seqZ_nil j) by lia. destruct (decide (i < CS)); simpl;
      rewrite !app_nil_r; reflexivity.
  - cbn [for_up].
    rewrite (seqZ_cons j (Z.of_nat (S n))) by lia.
    replace (Z.pred (Z.of_nat (S n))) with (Z.of_nat n) by lia.
    destruct (decide (i < CS /\ j < CS)) as [[Hic Hjc] | Hedge].
    + rewrite cell_body_core by (lia || (rewrite HD by lia; lia)).
      rewrite (int_add_id j 1) by range_solve.
      rewrite IH;
        [ | first [ lia
                  | rewrite ?length_app; simpl; lia
                  | intros _; rewrite length_app, Nat2Z.inj_add, HD by lia;
                    simpl; lia ] .. ].
      unfold row_heights_from, row_triangles_from. rewrite !decide_True by exact Hic.
      rewrite (seqZ_cons j (CS - j)) by lia.
      replace (Z.pred (CS - j)) with (CS - (j + 1)) by lia.
      replace (Z.succ j) with (j + 1) by lia.
      cbn [map flat_map]. rewrite <- !app_assoc. reflexivity.
    + rewrite cell_body_edge by lia.
      rewrite (int_add_id j 1) by range_solve.
      rewrite IH;
        [ | first [ lia
                  | rewrite ?length_app; simpl; lia
                  | intros Hic; rewrite HD by lia; lia ] .. ].
      replace (Z.succ j) with (j + 1) by lia.
      assert (Hrow : row_heights i (j + 1) = row_heights i j
                     /\ row_triangles i (j + 1) = row_triangles i j).
      { unfold row_heights_from, row_triangles_from.
        destruct (decide (i < CS)); [| split; reflexivity].
        rewrite !(seqZ_nil (j + 1)), !(seqZ_nil j) by lia. split; reflexivity. }
      destruct Hrow as [-> ->]. cbn [map]. rewrite <- !app_assoc. reflexivity.
Qed.

(** The outer loop, from row [i] to the last row. *)
Lemma outer_loop :
  forall (n : nat) (i : Z) (V : list (vertex_t F)) (D : list F) (I : list Z),
    0 <= i -> i + Z.of_nat n = CS + 1 ->
    Z.of_nat (length V) = i * (CS + 1) ->
    Z.of_nat (length D) = Z.min i CS * CS ->
    (length I = 6 * length D)%nat ->
    for_up n i
      (fun i => for_up (Z.to_nat (CS + 1)) 0 (cell_body T normalize x z i))
      (state_of V D I)
    = Some (state_of
              (V ++ flat_map (fun i => map (grid_vertex T normalize x z i)
                                           (seqZ 0 (CS + 1)))
                             (seqZ i (Z.of_nat n)))
              (D ++ flat_map (fun i => row_heights i 0) (seqZ i (Z.of_nat n)))
              (I ++ flat_map (fun i => row_triangles i 0) (seqZ i (Z.of_nat n)))).
Proof.
  induction n as [| n IH]; intros i V D I Hi Hn HV HD HI.
  - cbn [for_up]. rewrite !(seqZ_nil i) by lia. cbn [flat_map].
    rewrite !app_nil_r. reflexivity.
  - cbn [for_up]. cbv beta.
    assert (Hi' : 0 <= i <= CS) by lia.
    pose proof (inner_loop i Hi' (Z.to_nat (CS + 1)) 0 V D I) as Hrow.
    rewrite Z2Nat.id in Hrow by lia.
    rewrite Hrow; [| lia | lia | nia | (intros; nia) | exact HI]. clear Hrow.
    rewrite (int_add_id i 1) by range_solve.
    assert (HDrow : Z.of_nat (length (D ++ row_heights i 0)) = Z.min (i + 1) CS * CS).
    { rewrite length_app, Nat2Z.inj_add. destruct (decide (i < CS)) as [Hic | Hic].
      - rewrite row_heights_length by lia. nia.
      - unfold row_heights_from. rewrite decide_False by exact Hic. simpl. nia. }
    rewrite IH; [| lia | lia | | exact HDrow | ].
    + rewrite (seqZ_cons i (Z.of_nat (S n))) by lia.
      replace (Z.pred (Z.of_nat (S n))) with (Z.of_nat n) by lia.
      replace (Z.succ i) with (i + 1) by lia.
      cbn [flat_map]. rewrite <- !app_assoc. reflexivity.
    + rewrite length_app, length_map, length_seqZ, Nat2Z.inj_add. lia.
    + rewrite !length_app, row_triangles_length. lia.
Qed.

Lemma flat_map_ext_elem {A B : Type} (f g : A -> list B) (l : list A) :
  (forall a, a ∈ l -> f a = g a) -> flat_map f l = flat_map g l.
Proof.
  induction l as [| a l IH]; intros Hfg; simpl; [reflexivity |].
  rewrite (Hfg a) by left. rewrite IH; [reflexivity |].
  intros b Hb. apply Hfg. right. exact Hb.
Qed.

Lemma core_rows_heights :
  flat_map (fun i => row_heights i 0) (seqZ 0 (CS + 1))
  = expected_heights T normalize x z.
Proof.
  rewrite (seqZ_app 0 CS 1) by lia. rewrite flat_map_app.
  change (seqZ (0 + CS) 1) with [0 + CS]. cbn [flat_map].
  unfold row_heights_from at 2. rewrite decide_False by lia.
  rewrite !app_nil_r. unfold expected_heights.
  apply flat_map_ext_elem. intros i Hi. apply elem_of_seqZ in Hi.
  unfold row_heights_from. rewrite decide_True by lia.
  rewrite Z.sub_0_r. reflexivity.
Qed.

Lemma core_rows_triangles :
  flat_map (fun i => row_triangles i 0) (seqZ 0 (CS + 1)) = expected_indices CS.
Proof.
  rewrite (seqZ_app 0 CS 1) by lia. rewrite flat_map_app.
  change (seqZ (0 + CS) 1) with [0 + CS]. cbn [flat_map].
  unfold row_triangles_from at 2. rewrite decide_False by lia.
  rewrite !app_nil_r. unfold expected_indices.
  apply flat_map_ext_elem. intros i Hi. apply elem_of_seqZ in Hi.
  unfold row_triangles_from. rewrite decide_True by lia.
  rewrite Z.sub_0_r. reflexivity.
Qed.

Lemma expected_heights_length :
  length (expected_heights T normalize x z) = Nd.
Proof.
  unfold expected_heights.
  rewrite (length_flat_map_const _ (Z.to_nat CS))
    by (intros; rewrite length_map, length_seqZ; reflexivity).
  rewrite length_seqZ. nia.
Qed.

Lemma expected_vertices_length :
  length (expected_vertices T normalize x z) = Nv.
Proof.
  unfold expected_vertices.
  rewrite (length_flat_map_const _ (Z.to_nat (CS + 1)))
    by (intros; rewrite length_map, length_seqZ; reflexivity).
  rewrite length_seqZ. nia.
Qed.

Lemma expected_indices_length : length (expected_indices CS) = Ni.
Proof.
  unfold expected_indices.
  rewrite (length_flat_map_const _ (6 * Z.to_nat CS)).
  - rewrite length_seqZ. nia.
  - intros i _. rewrite (length_flat_map_const _ 6) by (intros; reflexivity).
    rewrite length_seqZ. lia.
Qed.

(** The build never faults and fills its three arrays completely. *)
Lemma build_chunk_eq :
  build_chunk T normalize x z
  = Some (map Some (expected_heights T normalize x z),
          VboData (map Some (expected_vertices T normalize x z))
                  ((CS + 1) * (CS + 1))
                  (map Some (expected_indices CS)) (CS * CS * 6)).
Proof.
  unfold build_chunk, build_loops. cbv zeta.
  rewrite build_init_eq.
  pose proof (outer_loop (Z.to_nat (CS + 1)) 0 [] [] []) as Hloop.
  rewrite Z2Nat.id in Hloop by lia.
  change (for_up (Z.to_nat (CS + 1)) 0 _ (state_of [] [] []))
    with (for_up (Z.to_nat (CS + 1)) 0
            (fun i => for_up (Z.to_nat (CS + 1)) 0 (cell_body T normalize x z i))
            (state_of [] [] [])).
  rewrite Hloop by (simpl; lia). clear Hloop.
  cbn [mbind option_bind app].
  rewrite core_rows_heights, core_rows_triangles.
  fold (expected_vertices T normalize x z).
  unfold written_state. cbv zeta.
  cbn [data_points b_vertices b_indices].
  rewrite mesh_width_eq, the_indices_count_eq.
  rewrite (int_mul_id (CS + 1)) by range_solve.
  rewrite <- expected_heights_length at 1.
  rewrite <- expected_vertices_length at 1.
  rewrite <- expected_indices_length at 1.
  rewrite !filled_full. reflexivity.
Qed.

End BuilderProofs.

(** *** Shape of the index list *)

Lemma cell_triangles_bound (CS i j : Z) :
  0 <= i < CS -> 0 <= j < CS ->
  Forall (fun k => 0 <= k < (CS + 1) * (CS + 1)) (cell_triangles CS i j).
Proof.
  intros Hi Hj. unfold cell_triangles. cbv zeta.
  repeat (apply Forall_cons; split; [nia |]). apply Forall_nil_2.
Qed.

Lemma expected_indices_bound (CS : Z) :
  Forall (fun k => 0 <= k < (CS + 1) * (CS + 1)) (expected_indices CS).
Proof.
  apply Forall_forall. intros k Hk. apply list_elem_of_In in Hk.
  unfold expected_indices in Hk.
  apply in_flat_map in Hk as (i & Hi & Hk).
  apply in_flat_map in Hk as (j & Hj & Hk).
  apply list_elem_of_In, elem_of_seqZ in Hi.
  apply list_elem_of_In, elem_of_seqZ in Hj.
  pose proof (cell_triangles_bound CS i j ltac:(lia) ltac:(lia)) as Hall.
  rewrite Forall_forall in Hall. apply Hall, list_elem_of_In, Hk.
Qed.

(** In a concatenation of blocks of equal length, block [a] starts at
    [a * k]. *)
Lemma flat_map_block {B : Type} (f : Z -> list B) (k : nat) (n a : Z) :
  (forall m, length (f m) = k) -> 0 <= a < n ->
  exists rest,
    drop (Z.to_nat a * k) (flat_map f (seqZ 0 n)) = f a ++ rest.
Proof.
  intros Hk Ha.
  replace n with (a + (1 + (n - a - 1))) by lia.
  rewrite (seqZ_app 0 a) by lia. rewrite (seqZ_app (0 + a) 1) by lia.
  rewrite !flat_map_app.
  change (seqZ (0 + a) 1) with [0 + a]. cbn [flat_map]. rewrite app_nil_r.
  rewrite Z.add_0_l.
  exists (flat_map f (seqZ (a + 1) (n - a - 1))).
  rewrite drop_app_length'; [reflexivity |].
  rewrite (length_flat_map_const f k) by (intros; apply Hk).
  rewrite length_seqZ. reflexivity.
Qed.

Lemma expected_indices_cell (CS i j : Z) :
  0 <= i < CS -> 0 <= j < CS ->
  take 6 (drop (Z.to_nat (6 * (i * CS + j))) (expected_indices CS))
  = cell_triangles CS i j.
Proof.
  intros Hi Hj. unfold expected_indices.
  destruct (flat_map_block
              (fun i => flat_map (fun j => cell_triangles CS i j) (seqZ 0 CS))
              (Z.to_nat CS * 6) CS i) as [rest1 Hrow]; [| lia |].
  { intros m. rewrite (length_flat_map_const _ 6) by (intros; reflexivity).
    rewrite length_seqZ. reflexivity. }
  destruct (flat_map_block (fun j => cell_triangles CS i j) 6 CS j)
    as [rest2 Hcell]; [intros; reflexivity | lia |].
  replace (Z.to_nat (6 * (i * CS + j)))
    with (Z.to_nat i * (Z.to_nat CS * 6) + Z.to_nat j * 6)%nat by nia.
  rewrite <- drop_drop, Hrow.
  rewrite drop_app_le.
  2:{ rewrite (length_flat_map_const _ 6) by (intros; reflexivity).
      rewrite length_seqZ. nia. }
  rewrite Hcell, <- app_assoc.
  rewrite take_app_length'; reflexivity.
Qed.

(** C4: for every coordinate the build succeeds; it writes every cell of the
    height grid (CHUNK_SIZE² heights, row by row) and of the index array
    (CHUNK_SIZE² × 6 indices), every index is below (CHUNK_SIZE+1)², and the
    six indices of cell (i, j) are top-left, top-right, bottom-left,
    top-right, bottom-right, bottom-left in row-major numbering of width
    CHUNK_SIZE+1. *)
Theorem build_chunk_shape {F : Type} `{FloatOps F} (T : Terrain F)
    (normalize : vec3 F -> vec3 F) (x z : Z) :
  0 < CHUNK_SIZE T ->
  CHUNK_SIZE T * CHUNK_SIZE T * 6 <= Int32.max_int ->
  exists heights data,
    build_chunk T normalize x z = Some (heights, data)
    /\ heights = map Some (expected_heights T normalize x z)
    /\ length heights = Z.to_nat (CHUNK_SIZE T * CHUNK_SIZE T)
    /\ indices data = map Some (expected_indices (CHUNK_SIZE T))
    /\ length (indices data) = Z.to_nat (CHUNK_SIZE T * CHUNK_SIZE T * 6)
    /\ indices_count data = CHUNK_SIZE T * CHUNK_SIZE T * 6
    /\ Forall (fun k => 0 <= k < (CHUNK_SIZE T + 1) * (CHUNK_SIZE T + 1))
              (expected_indices (CHUNK_SIZE T))
    /\ (forall i j, 0 <= i < CHUNK_SIZE T -> 0 <= j < CHUNK_SIZE T ->
        take 6 (drop (Z.to_nat (6 * (i * CHUNK_SIZE T + j)))
                     (expected_indices (CHUNK_SIZE T)))
        = cell_triangles (CHUNK_SIZE T) i j).
Proof.
  intros HCS Hmax. eexists. eexists.
  split; [apply build_chunk_eq; assumption |].
  split; [reflexivity |].
  split; [rewrite length_map; apply expected_heights_length; assumption |].
  cbn [indices indices_count].
  split; [reflexivity |].
  split; [rewrite length_map; apply expected_indices_length; assumption |].
  split; [reflexivity |].
  split; [apply expected_indices_bound |].
  intros i j Hi Hj. apply expected_indices_cell; assumption.
Qed.

Lemma build_chunk_shape_witness :
  exists heights data,
    build_chunk flat_terrain glm_normalize (-16) 32 = Some (heights, data)
    /\ heights = map Some (expected_heights flat_terrain glm_normalize (-16) 32)
    /\ length heights = Z.to_nat (16 * 16)
    /\ indices data = map Some (expected_indices 16)
    /\ length (indices data) = Z.to_nat (16 * 16 * 6)
    /\ indices_count data = 16 * 16 * 6
    /\ Forall (fun k => 0 <= k < (16 + 1) * (16 + 1)) (expected_indices 16)
    /\ (forall i j, 0 <= i < 16 -> 0 <= j < 16 ->
        take 6 (drop (Z.to_nat (6 * (i * 16 + j))) (expected_indices 16))
        = cell_triangles 16 i j).
Proof.
  apply (build_chunk_shape flat_terrain glm_normalize (-16) 32).
  - simpl. lia.
  - simpl. unfold Int32.max_int. lia.
Defined.

(** ** The control skeleton simulates the World

    Whether a chunk is built, queued or registered never depends on the
    heights or the mesh: erasing the payloads commutes with every step. *)

Section ErasureProofs.
Context {H M V P : Type}.
Variable build : Z -> Z -> option (H * M).
Variable upload : M -> V.
Variable position_to_int : P -> Z.
Variable CS : Z.
Variable L : Limits.

Hypothesis build_total : forall x z, is_Some (build x z).

Local Abbreviation er := (erase position_to_int).
Local Abbreviation skel_build := (fun _ _ : Z => Some (tt, tt)).
Local Abbreviation skel_upload := (fun _ : unit => tt).
Local Abbreviation skel_pos := (fun p : Z => p).

Lemma registered_erase (x z : Z) (cs : list (chunk_t H V)) :
  registered x z (map erase_chunk cs) = registered x z cs.
Proof.
  unfold registered. induction cs as [| c cs IH]; simpl; [reflexivity |].
  rewrite IH. reflexivity.
Qed.

Lemma drain_queue_erase (q : list (immature_chunk_data_t H M V)) (hp : list block) :
  drain_queue (map erase_immature q) hp = drain_queue q hp.
Proof.
  unfold drain_queue. revert hp.
  induction q as [| d q IH]; intros hp; simpl; [reflexivity |]. apply IH.
Qed.

Lemma release_chunks_erase (cs : list (chunk_t H V)) (hp : list block) :
  release_chunks (map erase_chunk cs) hp = release_chunks cs hp.
Proof.
  unfold release_chunks. revert hp.
  induction cs as [| c cs IH]; intros hp; simpl; [reflexivity |]. apply IH.
Qed.

Lemma generateChunk_erase (m : Machine H M V P) (x z : Z) :
  er (generateChunk build m x z) = generateChunk skel_build (er m) x z.
Proof.
  destruct m as [[cs q dr ob th] d wk obs ce hp bs ft].
  unfold generateChunk, erase, erase_world. cbn -[registered].
  rewrite registered_erase.
  destruct (registered x z cs); [reflexivity |].
  destruct (build_total x z) as [[hm md] ->]. cbn.
  rewrite map_app. reflexivity.
Qed.

Lemma render_erase (m : Machine H M V P) :
  er (render upload m) = render skel_upload (er m).
Proof.
  destruct m as [[cs q dr ob th] d wk obs ce hp bs ft].
  unfold render, erase, erase_world. cbn.
  destruct q as [| data q]; [reflexivity |]. cbn.
  rewrite map_app. reflexivity.
Qed.

Lemma world_generation_fn_step_erase (m : Machine H M V P) :
  er (world_generation_fn_step build position_to_int CS L m)
  = world_generation_fn_step skel_build skel_pos CS L (er m).
Proof.
  unfold world_generation_fn_step.
  destruct (worker m) as [| [|] | | px pz x z |] eqn:Hw.
  - destruct m; cbn in *; subst; reflexivity.
  - destruct m; cbn in *; subst; reflexivity.
  - destruct m as [[cs q dr ob th] d wk obs ce hp bs ft]; cbn in *; subst.
    destruct d; [reflexivity |]. destruct (_ >? _); reflexivity.
  - destruct m as [[cs q dr ob th] d wk obs ce hp bs ft]; cbn in *; subst.
    destruct d; [reflexivity |]. rewrite length_map.
    destruct (_ >? _); reflexivity.
  - pose proof (generateChunk_erase m (Int32.add px (Int32.mul x CS))
                                      (Int32.add pz (Int32.mul z CS))) as Hg.
    replace (worker (er m)) with (InRing px pz x z) by (rewrite <- Hw; reflexivity).
    replace (destroyed (er m)) with (destroyed m) by reflexivity.
    destruct (destroyed m).
    + destruct m; reflexivity.
    + rewrite <- Hg.
      replace (fault (er (generateChunk build m (Int32.add px (Int32.mul x CS))
                                        (Int32.add pz (Int32.mul z CS)))))
        with (fault (generateChunk build m (Int32.add px (Int32.mul x CS))
                                   (Int32.add pz (Int32.mul z CS))))
        by reflexivity.
      destruct (fault (generateChunk build m _ _)); reflexivity.
  - destruct m; cbn in *; subst; reflexivity.
Qed.

Lemma erase_step (m : Machine H M V P) (e : event P) :
  er (step build upload position_to_int CS L m e)
  = skeleton_step CS L (er m) (erase_event position_to_int e).
Proof.
  unfold skeleton_step, step.
  replace (fault (er m)) with (fault m) by reflexivity.
  destruct (fault m); [reflexivity |].
  replace (destroyed (er m)) with (destroyed m) by reflexivity.
  destruct e as [o | | | p |]; cbn [erase_event].
  - destruct (destroyed m); [reflexivity |].
    destruct m as [[cs q dr ob th] d wk obs ce hp bs ft].
    unfold startWorldGeneration. cbn. destruct th; reflexivity.
  - apply world_generation_fn_step_erase.
  - destruct (destroyed m); [reflexivity |]. apply render_erase.
  - reflexivity.
  - destruct (destroyed m); [reflexivity |].
    destruct m as [[cs q dr ob th] d wk obs ce hp bs ft].
    unfold destroy_world, erase. cbn -[drain_queue release_chunks].
    rewrite drain_queue_erase, release_chunks_erase. reflexivity.
Qed.

Lemma erase_run (es : list (event P)) (m : Machine H M V P) :
  er (run build upload position_to_int CS L m es)
  = skeleton_run CS L (er m) (map (erase_event position_to_int) es).
Proof.
  unfold run, skeleton_run, run. revert m.
  induction es as [| e es IH]; intros m; simpl; [reflexivity |].
  rewrite IH. f_equal. apply erase_step.
Qed.

Lemma chunk_coords_erase (m : Machine H M V P) :
  chunk_coords m = chunk_coords (er m).
Proof.
  unfold chunk_coords. cbn [world erase erase_world chunks].
  rewrite map_map. reflexivity.
Qed.

Lemma queue_coords_erase (m : Machine H M V P) :
  queue_coords m = queue_coords (er m).
Proof.
  unfold queue_coords. cbn [world erase erase_world chunkMeshGenerationQueue].
  rewrite map_map. reflexivity.
Qed.

End ErasureProofs.

(** ** Executions of the scenario World *)

Lemma Rtrunc_IZR (n : Z) : Rtrunc (IZR n) = n.
Proof.
  unfold Rtrunc. destruct (Rle_dec 0 (IZR n)) as [Hle | Hlt].
  - symmetry. apply Int_part_spec. lra.
  - rewrite <- opp_IZR. rewrite <- (Int_part_spec (IZR (- n)) (- n)) by lra. lia.
Qed.

Lemma flat_build_total (x z : Z) : is_Some (build_chunk flat_terrain glm_normalize x z).
Proof.
  rewrite build_chunk_eq; [eexists; reflexivity | |];
    simpl; unfold Int32.max_int; lia.
Qed.

Lemma world_run_skeleton (L : Limits) (m : WorldMachine R) (es : list (event R)) :
  erase to_int (world_run flat_terrain glm_normalize L m es)
  = skeleton_run 16 L (erase to_int m) (map (erase_event to_int) es).
Proof. unfold world_run. apply erase_run. apply flat_build_total. Qed.

Lemma erase_origin : erase_position (to_int (F := R)) origin = Vec3 0 0 0.
Proof.
  unfold erase_position, origin. cbn [vx vy vz to_int R_FloatOps].
  rewrite (Rtrunc_IZR 0). reflexivity.
Qed.

Lemma erase_at_x (px : Z) : erase_position (to_int (F := R)) (at_x px) = Vec3 px 0 0.
Proof.
  unfold erase_position, at_x. cbn [vx vy vz to_int R_FloatOps].
  rewrite (Rtrunc_IZR 0), Rtrunc_IZR. reflexivity.
Qed.

Lemma erase_fresh :
  erase (to_int (F := R)) (fresh_machine origin : WorldMachine R)
  = fresh_machine (Vec3 0 0 0).
Proof.
  unfold erase, fresh_machine. cbn [observation]. rewrite erase_origin. reflexivity.
Qed.

Lemma erase_replicate (n : nat) (e : event R) :
  map (erase_event to_int) (replicate n e) = replicate n (erase_event to_int e).
Proof.
  induction n as [| n IH]; cbn [replicate map]; [reflexivity |].
  f_equal. exact IH.
Qed.

Lemma erase_turns (ts : list turn) :
  map (erase_event (to_int (F := R))) (map turn_event ts) = map turn_event ts.
Proof.
  induction ts as [| t ts IH]; cbn [map]; [reflexivity |].
  f_equal; [destruct t; reflexivity | exact IH].
Qed.

(** The skeleton of a scenario execution. *)
Lemma scenario_run_skeleton (L : Limits) (es : list (event R)) :
  erase to_int (scenario_run L es)
  = skeleton_run 16 L (fresh_machine (Vec3 0 0 0)) (map (erase_event to_int) es).
Proof. unfold scenario_run. rewrite world_run_skeleton, erase_fresh. reflexivity. Qed.

Lemma builds_erase {H M V P : Type} (f : P -> Z) (m : Machine H M V P) :
  builds m = builds (erase f m).
Proof. reflexivity. Qed.

Lemma worker_erase {H M V P : Type} (f : P -> Z) (m : Machine H M V P) :
  worker m = worker (erase f m).
Proof. reflexivity. Qed.

Lemma fault_erase {H M V P : Type} (f : P -> Z) (m : Machine H M V P) :
  fault m = fault (erase f m).
Proof. reflexivity. Qed.

Lemma heap_erase {H M V P : Type} (f : P -> Z) (m : Machine H M V P) :
  heap m = heap (erase f m).
Proof. reflexivity. Qed.

(** Everything but the payloads can be read off the skeleton. *)
Lemma scenario_observables (L : Limits) (es : list (event R)) :
  let m := scenario_run L es in
  let s := skeleton_run 16 L (fresh_machine (Vec3 0 0 0))
                        (map (erase_event to_int) es) in
  chunk_coords m = chunk_coords s
  /\ queue_coords m = queue_coords s
  /\ builds m = builds s
  /\ worker m = worker s
  /\ fault m = fault s
  /\ heap m = heap s
  /\ destroyed m = destroyed s
  /\ cerr m = cerr s.
Proof.
  cbv zeta. rewrite <- scenario_run_skeleton.
  split; [apply chunk_coords_erase |]. split; [apply queue_coords_erase |].
  repeat (split; [reflexivity |]). reflexivity.
Qed.

Ltac to_skeleton L es :=
  let Hc := fresh in let Hq := fresh in let Hb := fresh in let Hw := fresh in
  let Hf := fresh in let Hh := fresh in let Hd := fresh in let He := fresh in
  pose proof (scenario_observables L es) as (Hc & Hq & Hb & Hw & Hf & Hh & Hd & He);
  rewrite ?Hc, ?Hq, ?Hb, ?Hw, ?Hf, ?Hh, ?Hd, ?He;
  clear Hc Hq Hb Hw Hf Hh Hd He.

Lemma skeleton_twice_around :
  map (erase_event to_int) twice_around
  = StartWorldGeneration ObservationRef
    :: replicate 404 WorkerStep ++ replicate 401 Render.
Proof.
  unfold twice_around. cbn [map]. rewrite map_app, !erase_replicate. reflexivity.
Qed.

(** C1 fails on the code: with the observation point at rest and no frame
    rendered during the first 404 worker steps, the coordinate (-160, -160)
    is built twice, and after 401 frames the registry holds it twice. *)
Theorem generateChunk_builds_twice :
  let m := scenario_run source_limits twice_around in
  builds m !! 0%nat = Some (-160, -160)
  /\ builds m !! 400%nat = Some (-160, -160)
  /\ chunk_coords m !! 0%nat = Some (-160, -160)
  /\ chunk_coords m !! 400%nat = Some (-160, -160)
  /\ ~ NoDup (builds m) /\ ~ NoDup (chunk_coords m).
Proof.
  cbv zeta. to_skeleton source_limits twice_around.
  rewrite skeleton_twice_around.
  set (s := skeleton_run _ _ _ _).
  assert (Hs : let s' := s in
               builds s' !! 0%nat = Some (-160, -160)
               /\ builds s' !! 400%nat = Some (-160, -160)
               /\ chunk_coords s' !! 0%nat = Some (-160, -160)
               /\ chunk_coords s' !! 400%nat = Some (-160, -160)).
  { subst s. vm_compute. repeat split. }
  cbv zeta in Hs. clearbody s. destruct Hs as (Hb0 & Hb1 & Hc0 & Hc1).
  split; [exact Hb0 |]. split; [exact Hb1 |].
  split; [exact Hc0 |]. split; [exact Hc1 |]. split.
  - intros Hnd. pose proof (NoDup_lookup _ _ _ _ Hnd Hb0 Hb1). discriminate.
  - intros Hnd. pose proof (NoDup_lookup _ _ _ _ Hnd Hc0 Hc1). discriminate.
Qed.

Lemma skeleton_run_app (CS : Z) (L : Limits) (s : Skeleton) (es1 es2 : list (event Z)) :
  skeleton_run CS L s (es1 ++ es2) = skeleton_run CS L (skeleton_run CS L s es1) es2.
Proof. unfold skeleton_run, run. apply fold_left_app. Qed.

Lemma destroyed_erase {H M V P : Type} (f : P -> Z) (m : Machine H M V P) :
  destroyed m = destroyed (erase f m).
Proof. reflexivity. Qed.

Ltac erase_schedule :=
  repeat (rewrite ?map_app, ?erase_replicate; cbn [map erase_event]);
  rewrite ?erase_at_x.

Lemma skeleton_three_rings (frames : nat) :
  map (erase_event to_int) (three_rings frames)
  = StartWorldGeneration ObservationRef
    :: replicate 402 WorkerStep
    ++ MoveObservation (Vec3 320 0 0) :: replicate 401 WorkerStep
    ++ MoveObservation (Vec3 640 0 0) :: replicate 401 WorkerStep
    ++ replicate frames Render.
Proof. unfold three_rings. erase_schedule. reflexivity. Qed.

(** C2 fails on the code: three rings of 400 distinct coordinates are queued
    while the registry is still below the ceiling; after 1000 frames the
    registry holds 1000 chunks and the worker has not returned; one more
    frame makes it 1001 chunks, all at distinct coordinates; and if the
    observation point moves on instead, the worker builds a further chunk. *)
Theorem chunk_ceiling_exceeded :
  let at_ceiling := scenario_run source_limits (three_rings 1000) in
  let over := scenario_run source_limits one_more_frame in
  let more := scenario_run source_limits two_more_steps in
  length (chunk_coords at_ceiling) = 1000%nat
  /\ worker at_ceiling = AtLoopHead
  /\ length (builds at_ceiling) = 1200%nat
  /\ length (chunk_coords over) = 1001%nat
  /\ NoDup (chunk_coords over)
  /\ length (builds more) = 1201%nat
  /\ worker more = InRing 960 0 (-10) (-9).
Proof.
  cbv zeta.
  to_skeleton source_limits (three_rings 1000).
  to_skeleton source_limits one_more_frame.
  to_skeleton source_limits two_more_steps.
  unfold one_more_frame, two_more_steps.
  rewrite !map_app, !skeleton_run_app, skeleton_three_rings.
  cbn [map erase_event]. rewrite erase_at_x.
  set (s := skeleton_run 16 source_limits (fresh_machine (Vec3 0 0 0)) _).
  assert (Hs : let s' := s in
               let over := skeleton_run 16 source_limits s' [Render] in
               let more := skeleton_run 16 source_limits s'
                             [MoveObservation (Vec3 960 0 0); WorkerStep; WorkerStep] in
               length (chunk_coords s') = 1000%nat
               /\ worker s' = AtLoopHead
               /\ length (builds s') = 1200%nat
               /\ length (chunk_coords over) = 1001%nat
               /\ bool_decide (NoDup (chunk_coords over)) = true
               /\ length (builds more) = 1201%nat
               /\ worker more = InRing 960 0 (-10) (-9)).
  { subst s. vm_compute. repeat split. }
  cbv zeta in Hs. clearbody s.
  destruct Hs as (H1 & H2 & H3 & H4 & H5 & H6 & H7).
  split; [exact H1 |]. split; [exact H2 |]. split; [exact H3 |].
  split; [exact H4 |]. split; [apply bool_decide_eq_true in H5; exact H5 |].
  split; [exact H6 | exact H7].
Qed.

(** C9 fails on the code: the destructor detaches the thread instead of
    joining it.  After the destructor the worker is still inside its loop,
    the height grid of the queued chunk and the queue records are still
    allocated, and the worker's next step reads the destroyed World. *)
Theorem destructor_detaches_worker :
  let gone := scenario_run source_limits destroyed_while_generating in
  let after := scenario_run source_limits step_after_destroy in
  destroyed gone = true
  /\ worker gone = InRing 0 0 (-10) (-8)
  /\ builds gone = [(-160, -160); (-160, -144)]
  /\ heap gone = [(ImmatureBlock, 0); (HeightMapBlock, 1); (ImmatureBlock, 1)]
  /\ fault gone = None
  /\ fault after = Some UseAfterFree.
Proof.
  cbv zeta.
  to_skeleton source_limits destroyed_while_generating.
  to_skeleton source_limits step_after_destroy.
  unfold step_after_destroy.
  rewrite map_app, skeleton_run_app.
  cbn [map erase_event destroyed_while_generating].
  set (s := skeleton_run 16 source_limits (fresh_machine (Vec3 0 0 0)) _).
  assert (Hs : let s' := s in
               destroyed s' = true
               /\ worker s' = InRing 0 0 (-10) (-8)
               /\ builds s' = [(-160, -160); (-160, -144)]
               /\ heap s' = [(ImmatureBlock, 0); (HeightMapBlock, 1); (ImmatureBlock, 1)]
               /\ fault s' = None
               /\ fault (skeleton_run 16 source_limits s' [WorkerStep])
                  = Some UseAfterFree).
  { subst s. vm_compute. repeat split. }
  exact Hs.
Qed.

(** ** Starting without an observation point *)

Section NullObservation.
Context {H M V P : Type}.
Variable build : Z -> Z -> option (H * M).
Variable upload : M -> V.
Variable position_to_int : P -> Z.
Variable CS : Z.
Variable L : Limits.

Local Abbreviation step' := (step build upload position_to_int CS L).
Local Abbreviation run' := (run build upload position_to_int CS L).

Lemma worker_never_builds_step (m : Machine H M V P) (e : event P) :
  worker_never_builds m ->
  worker_never_builds (step' m e) /\ builds (step' m e) = builds m.
Proof.
  intros Hinv. pose proof Hinv as [Hw Ht]. unfold step.
  destruct (fault m); [split; [exact Hinv | reflexivity] |].
  destruct e as [o | | | p |].
  - destruct (destroyed m) eqn:Hd; [split; [exact Hinv | reflexivity] |].
    destruct Ht as [Ht | Ht]; [| congruence].
    unfold startWorldGeneration. rewrite Ht.
    split; [exact Hinv | reflexivity].
  - unfold world_generation_fn_step.
    destruct Hw as [Hw | Hw]; rewrite Hw.
    + split; [| reflexivity]. split; [right; reflexivity | exact Ht].
    + split; [exact Hinv | reflexivity].
  - destruct (destroyed m) eqn:Hd; [split; [exact Hinv | reflexivity] |].
    destruct Ht as [Ht | Ht]; [| congruence].
    unfold render.
    destruct (chunkMeshGenerationQueue (world m));
      (split; [split; [exact Hw | left; exact Ht] | reflexivity]).
  - split; [split; [exact Hw | exact Ht] | reflexivity].
  - destruct (destroyed m) eqn:Hd; [split; [exact Hinv | reflexivity] |].
    split; [| reflexivity]. split; [exact Hw | right; reflexivity].
Qed.

Lemma worker_never_builds_run (es : list (event P)) (m : Machine H M V P) :
  worker_never_builds m -> builds (run' m es) = builds m.
Proof.
  unfold run. revert m.
  induction es as [| e es IH]; intros m Hm; simpl; [reflexivity |].
  destruct (worker_never_builds_step m e Hm) as [Hm' Hb].
  rewrite IH by exact Hm'. exact Hb.
Qed.

(** A worker that has returned stays returned and builds nothing more. *)
Lemma returned_worker_is_final (m : Machine H M V P) (es : list (event P)) :
  worker m = Returned -> worldGenerationThread (world m) = true ->
  builds (run' m es) = builds m.
Proof.
  intros Hw Ht. apply worker_never_builds_run.
  split; [right; exact Hw | left; exact Ht].
Qed.

(** C8, as the code has it: on a World that is not generating yet, a start
    with a null observation point leaves the registry and the queue alone,
    empties the drawables and the world objects and occupies the thread
    handle; the thread's first step writes the diagnostic and returns; no
    chunk is built in any continuation, later starts included. *)
Theorem start_without_observation (m : Machine H M V P) :
  worldGenerationThread (world m) = false -> destroyed m = false -> fault m = None ->
  let m1 := step' m (StartWorldGeneration NullObservation) in
  let m2 := step' m1 WorkerStep in
  chunks (world m1) = chunks (world m)
  /\ chunkMeshGenerationQueue (world m1) = chunkMeshGenerationQueue (world m)
  /\ drawables (world m1) = [] /\ worldObjects (world m1) = []
  /\ worldGenerationThread (world m1) = true
  /\ cerr m1 = cerr m
  /\ cerr m2 = cerr m ++ [no_observation_message]
  /\ worker m2 = Returned
  /\ world m2 = world m1
  /\ forall es : list (event P), builds (run' m1 es) = builds m.
Proof.
  intros Ht Hd Hf m1 m2.
  assert (Hm1 : m1 = MkMachine
                       (MkWorld (chunks (world m)) (chunkMeshGenerationQueue (world m))
                                [] [] true)
                       false (AtEntry NullObservation) (observation m) (cerr m)
                       (heap m) (builds m) None).
  { unfold m1, step, startWorldGeneration. rewrite Hf, Hd, Ht. reflexivity. }
  assert (Hm2 : m2 = MkMachine (world m1) false Returned (observation m)
                               (cerr m ++ [no_observation_message])
                               (heap m) (builds m) None).
  { unfold m2. rewrite Hm1. reflexivity. }
  rewrite Hm2. rewrite Hm1. cbn.
  repeat (split; [reflexivity |]).
  intros es. rewrite worker_never_builds_run; [reflexivity |].
  split; [left; reflexivity | left; reflexivity].
Qed.

End NullObservation.

Lemma start_without_observation_witness :
  let step' := world_step flat_terrain glm_normalize source_limits in
  let run' := world_run flat_terrain glm_normalize source_limits in
  let m := world_with_drawable in
  let m1 := step' m (StartWorldGeneration NullObservation) in
  let m2 := step' m1 WorkerStep in
  chunks (world m1) = chunks (world m)
  /\ chunkMeshGenerationQueue (world m1) = chunkMeshGenerationQueue (world m)
  /\ drawables (world m1) = [] /\ worldObjects (world m1) = []
  /\ worldGenerationThread (world m1) = true
  /\ cerr m1 = cerr m
  /\ cerr m2 = cerr m ++ [no_observation_message]
  /\ worker m2 = Returned
  /\ world m2 = world m1
  /\ forall es : list (event R), builds (run' m1 es) = builds m.
Proof.
  exact (start_without_observation
           (build_chunk flat_terrain glm_normalize) upload_mesh to_int
           (CHUNK_SIZE flat_terrain) source_limits world_with_drawable
           eq_refl eq_refl eq_refl).
Defined.

(** C8, as stated, fails: the call changes the World; a drawable that was
    there before is gone after it. *)
Lemma start_without_observation_clears_drawables :
  drawables (world world_with_drawable) = [7%nat]
  /\ drawables (world (world_step flat_terrain glm_normalize source_limits
                                  world_with_drawable
                                  (StartWorldGeneration NullObservation))) = []
  /\ world (world_step flat_terrain glm_normalize source_limits
                       world_with_drawable (StartWorldGeneration NullObservation))
     <> world world_with_drawable.
Proof.
  split; [reflexivity |]. split; [reflexivity |].
  intros Heq. apply (f_equal drawables) in Heq. discriminate Heq.
Qed.

(** ** The documented scenario: radius 1, ceiling 9 *)

Local Abbreviation skel_build := (fun _ _ : Z => Some (tt, tt)).

Lemma small_ring_generateChunk (s : Skeleton) (x z : Z) :
  (x, z) ∈ small_ring ->
  Forall (fun c => c ∈ small_ring) (chunk_coords s) ->
  Forall (fun c => c ∈ small_ring) (queue_coords s) ->
  let s' := generateChunk skel_build s x z in
  Forall (fun c => c ∈ small_ring) (chunk_coords s')
  /\ Forall (fun c => c ∈ small_ring) (queue_coords s')
  /\ worker s' = worker s /\ observation s' = observation s
  /\ fault s' = fault s.
Proof.
  intros Hxz Hc Hq. destruct s as [[cs q dr ob th] d wk obs ce hp bs ft].
  unfold generateChunk. cbn -[registered small_ring].
  destruct (registered x z cs).
  - repeat split; assumption.
  - unfold chunk_coords, queue_coords in *. cbn -[small_ring] in *.
    split; [assumption |]. split; [| repeat split].
    rewrite map_app. apply Forall_app. split; [assumption |].
    apply Forall_cons. split; [exact Hxz | apply Forall_nil_2].
Qed.

Lemma small_ring_render (s : Skeleton) :
  Forall (fun c => c ∈ small_ring) (chunk_coords s) ->
  Forall (fun c => c ∈ small_ring) (queue_coords s) ->
  let s' := render (fun _ : unit => tt) s in
  Forall (fun c => c ∈ small_ring) (chunk_coords s')
  /\ Forall (fun c => c ∈ small_ring) (queue_coords s')
  /\ worker s' = worker s /\ observation s' = observation s.
Proof.
  intros Hc Hq. destruct s as [[cs q dr ob th] d wk obs ce hp bs ft].
  unfold render. cbn -[small_ring].
  destruct q as [| data q].
  - repeat split; assumption.
  - unfold chunk_coords, queue_coords in *. cbn -[small_ring] in *.
    apply Forall_cons in Hq as [Hdata Hq].
    split; [| split; [assumption | split; reflexivity]].
    rewrite map_app. apply Forall_app. split; [assumption |].
    apply Forall_cons. split; [exact Hdata | apply Forall_nil_2].
Qed.

Lemma enter_small_ring :
  enter_ring scenario_limits (chunk_align 16 0) (chunk_align 16 0)
  = InRing 0 0 (-1) (-1).
Proof. vm_compute. reflexivity. Qed.

Lemma small_ring_visit (x z : Z) :
  (x = -1 \/ x = 0) -> (z = -1 \/ z = 0) ->
  (Int32.add 0 (Int32.mul x 16), Int32.add 0 (Int32.mul z 16)) ∈ small_ring
  /\ small_ring_worker (next_in_ring scenario_limits 0 0 x z).
Proof.
  intros [-> | ->] [-> | ->]; vm_compute; (split; [| tauto || exact I]);
    repeat (first [apply list_elem_of_here | apply list_elem_of_further]).
Qed.

Lemma small_ring_inv_step (s : Skeleton) (t : turn) :
  small_ring_inv s -> small_ring_inv (skeleton_step 16 scenario_limits s (turn_event t)).
Proof.
  intros Hinv. pose proof Hinv as (Hc & Hq & Hw & Hx & Hz).
  unfold skeleton_step, step.
  destruct (fault s) eqn:Hf; [exact Hinv |].
  destruct t; cbn [turn_event].
  - unfold world_generation_fn_step.
    destruct (worker s) as [| o | | px pz x z |] eqn:Hwk.
    + exact Hinv.
    + destruct o.
      * unfold small_ring_inv. cbn -[small_ring]. repeat split; assumption.
      * destruct (destroyed s); [| destruct (_ >? _)];
          unfold small_ring_inv; cbn -[small_ring];
          rewrite ?Hwk; repeat split; assumption.
    + destruct (destroyed s); [| destruct (_ >? _)].
      * unfold small_ring_inv. cbn -[small_ring]. rewrite Hwk.
        repeat split; assumption.
      * unfold small_ring_inv. cbn -[small_ring]. repeat split; assumption.
      * rewrite Hx, Hz, enter_small_ring.
        unfold small_ring_inv. cbn -[small_ring]. repeat split; try assumption; tauto.
    + destruct Hw as (-> & -> & Hxr & Hzr).
      destruct (small_ring_visit x z Hxr Hzr) as [Hin Hnext].
      destruct (destroyed s).
      * unfold small_ring_inv. cbn -[small_ring]. rewrite Hwk.
        repeat split; try assumption; tauto.
      * destruct (small_ring_generateChunk s _ _ Hin Hc Hq)
          as (Hc' & Hq' & Hw' & Ho' & Hf').
        rewrite Hf', Hf.
        unfold small_ring_inv. cbn -[small_ring generateChunk next_in_ring].
        rewrite Ho'. repeat split; assumption.
    + exact Hinv.
  - destruct (destroyed s); [exact Hinv |].
    destruct (small_ring_render s Hc Hq) as (Hc' & Hq' & Hw' & Ho').
    unfold small_ring_inv. rewrite Hw', Ho'. repeat split; assumption.
Qed.

Lemma small_ring_inv_run (ts : list turn) (s : Skeleton) :
  small_ring_inv s ->
  small_ring_inv (skeleton_run 16 scenario_limits s (map turn_event ts)).
Proof.
  unfold skeleton_run, run. revert s.
  induction ts as [| t ts IH]; intros s Hs; simpl; [exact Hs |].
  apply IH. apply (small_ring_inv_step s t Hs).
Qed.

Lemma small_ring_inv_started :
  small_ring_inv (skeleton_step 16 scenario_limits (fresh_machine (Vec3 0 0 0))
                                (StartWorldGeneration ObservationRef)).
Proof.
  unfold small_ring_inv. cbn -[small_ring].
  repeat split; try apply Forall_nil_2.
Qed.

Lemma skeleton_started_turns (L : Limits) (ts : list turn) :
  skeleton_run 16 L (fresh_machine (Vec3 0 0 0))
               (map (erase_event to_int)
                    (StartWorldGeneration ObservationRef :: map turn_event ts))
  = skeleton_run 16 L
      (skeleton_step 16 L (fresh_machine (Vec3 0 0 0))
                     (StartWorldGeneration ObservationRef))
      (map turn_event ts).
Proof. cbn [map erase_event]. rewrite erase_turns. reflexivity. Qed.

(** C3, as stated, fails: in no interleaving of the two threads does the
    registry ever hold a chunk at (16, 16), one of the nine coordinates. *)
Lemma corner_chunk_never_generated :
  ~ exists ts : list turn,
      (16, 16) ∈ chunk_coords
                   (scenario_run scenario_limits
                      (StartWorldGeneration ObservationRef :: map turn_event ts)).
Proof.
  intros [ts Hin].
  revert Hin. to_skeleton scenario_limits
                (StartWorldGeneration (P := R) ObservationRef :: map turn_event ts).
  rewrite skeleton_started_turns. intros Hin.
  pose proof (small_ring_inv_run ts _ small_ring_inv_started) as (Hc & _).
  rewrite Forall_forall in Hc. specialize (Hc _ Hin).
  unfold small_ring in Hc.
  repeat (apply elem_of_cons in Hc as [Hc | Hc]; [discriminate Hc |]).
  apply elem_of_nil in Hc. exact Hc.
Qed.

(** Once the four chunks are registered nothing changes any more. *)
Lemma settled_step (w : worker_state) (t : turn) :
  w ∈ settled_workers ->
  exists w', w' ∈ settled_workers
             /\ skeleton_step 16 scenario_limits (settled_skeleton w) (turn_event t)
                = settled_skeleton w'.
Proof.
  intros Hw. unfold settled_workers in Hw.
  repeat (apply elem_of_cons in Hw as [-> | Hw]);
    [ .. | apply elem_of_nil in Hw; contradiction ];
    destruct t;
    first [ exists AtLoopHead; split; [| vm_compute; reflexivity]
          | exists (InRing 0 0 (-1) (-1)); split; [| vm_compute; reflexivity]
          | exists (InRing 0 0 (-1) 0); split; [| vm_compute; reflexivity]
          | exists (InRing 0 0 0 (-1)); split; [| vm_compute; reflexivity]
          | exists (InRing 0 0 0 0); split; [| vm_compute; reflexivity] ];
    unfold settled_workers;
    repeat (first [apply list_elem_of_here | apply list_elem_of_further]).
Qed.

Lemma settled_run (ts : list turn) (w : worker_state) :
  w ∈ settled_workers ->
  exists w', w' ∈ settled_workers
             /\ skeleton_run 16 scenario_limits (settled_skeleton w) (map turn_event ts)
                = settled_skeleton w'.
Proof.
  unfold skeleton_run, run. revert w.
  induction ts as [| t ts IH]; intros w Hw; simpl.
  - exists w. split; [exact Hw | reflexivity].
  - destruct (settled_step w t Hw) as (w1 & Hw1 & Hstep).
    unfold skeleton_step in Hstep. rewrite Hstep. apply IH. exact Hw1.
Qed.

Lemma skeleton_one_pass :
  skeleton_run 16 scenario_limits (fresh_machine (Vec3 0 0 0))
               (map (erase_event to_int) one_pass)
  = settled_skeleton AtLoopHead.
Proof. unfold one_pass. erase_schedule. vm_compute. reflexivity. Qed.

(** C3, as the code has it: with CHUNK_SIZE 16, radius 1, ceiling 9 and the
    observation point at the origin the worker visits the offsets -1 and 0 on
    both axes, x outermost: (-16,-16), (-16,0), (0,-16), (0,0).  After one
    pass and the four frames that consume it exactly these four chunks are
    registered; from then on, in every interleaving, the registry stays as it
    is and the worker keeps running. *)
Theorem small_ring_generation :
  let m := scenario_run scenario_limits one_pass in
  builds m = [(-16, -16); (-16, 0); (0, -16); (0, 0)]
  /\ chunk_coords m = [(-16, -16); (-16, 0); (0, -16); (0, 0)]
  /\ queue_coords m = []
  /\ worker m = AtLoopHead
  /\ forall ts : list turn,
       let m' := scenario_run scenario_limits (one_pass ++ map turn_event ts) in
       chunk_coords m' = [(-16, -16); (-16, 0); (0, -16); (0, 0)]
       /\ queue_coords m' = []
       /\ builds m' = [(-16, -16); (-16, 0); (0, -16); (0, 0)]
       /\ worker m' <> Returned.
Proof.
  cbv zeta. to_skeleton scenario_limits one_pass. rewrite skeleton_one_pass.
  split; [reflexivity |]. split; [reflexivity |].
  split; [reflexivity |]. split; [reflexivity |].
  intros ts. to_skeleton scenario_limits (one_pass ++ map (turn_event (P := R)) ts).
  rewrite map_app, skeleton_run_app, skeleton_one_pass, erase_turns.
  destruct (settled_run ts AtLoopHead) as (w & Hw & ->).
  { unfold settled_workers. apply list_elem_of_here. }
  split; [reflexivity |]. split; [reflexivity |]. split; [reflexivity |].
  cbn [worker settled_skeleton]. intros ->.
  unfold settled_workers in Hw.
  repeat (apply elem_of_cons in Hw as [Hw | Hw]; [discriminate Hw |]).
  apply elem_of_nil in Hw. exact Hw.
Qed.

(** * Further properties of the World *)

(** ** The hand-off queue and the heap *)

Lemma elem_of_free (b c : block) (hp : list block) :
  b ∈ free c hp <-> b ∈ hp /\ b <> c.
Proof. unfold free. rewrite list_elem_of_filter. tauto. Qed.

Lemma seqZ_snoc (n : nat) :
  seqZ 0 (Z.of_nat (S n)) = seqZ 0 (Z.of_nat n) ++ [Z.of_nat n].
Proof. rewrite seqZ_S. reflexivity. Qed.

Section HandOff.
Context {H M V P : Type}.
Variable build : Z -> Z -> option (H * M).
Variable upload : M -> V.
Variable position_to_int : P -> Z.
Variable CS : Z.
Variable L : Limits.

Local Abbreviation step' := (step build upload position_to_int CS L).
Local Abbreviation run' := (run build upload position_to_int CS L).

Lemma serials_below (regs queued : list Z) (n : nat) (id : Z) :
  regs ++ queued = seqZ 0 (Z.of_nat n) ->
  id ∈ regs \/ id ∈ queued -> 0 <= id < Z.of_nat n.
Proof.
  intros Hs Hid.
  assert (Hin : id ∈ seqZ 0 (Z.of_nat n))
    by (rewrite <- Hs; apply elem_of_app; exact Hid).
  apply elem_of_seqZ in Hin. lia.
Qed.

Lemma handoff_generateChunk (m : Machine H M V P) (x z : Z) :
  handoff_inv m -> handoff_inv (generateChunk build m x z).
Proof.
  intros Hinv. destruct m as [[cs q dr ob th] d wk obs ce hp bs ft].
  unfold generateChunk. cbn -[registered].
  destruct (registered x z cs); [exact Hinv |].
  destruct (build x z) as [[hm md] |]; [| exact Hinv].
  unfold handoff_inv, chunk_coords, queue_coords, chunk_serials, queue_serials in *.
  cbn in *. intros Hd. destruct (Hinv Hd) as (Hc & Hs & Hh). clear Hinv.
  rewrite !map_app, !app_assoc, Hc, Hs, length_app.
  cbn [map length chunk chunk_serial chunk_x chunk_z].
  split; [reflexivity |].
  split; [rewrite Nat.add_1_r, seqZ_snoc; reflexivity |].
  pose proof (fun id => serials_below _ _ _ id Hs) as Hlt.
  intros [k id]. rewrite elem_of_app, Hh. unfold owned_block, build_blocks.
  cbn [fst snd]. rewrite !elem_of_app, !elem_of_cons, !elem_of_nil.
  rewrite Nat.add_1_r, Nat2Z.inj_succ.
  split.
  - intros [Hold | Hnew].
    + destruct Hold as [[Hk Hid] | [[Hid Hk] | [Hid Hk]]].
      * left. split; [exact Hk | lia].
      * right. left. split; assumption.
      * right. right. split; [left; exact Hid | exact Hk].
    + destruct Hnew as [Hb | [Hb | [Hb | [Hb | [Hb | [Hb | []]]]]]];
        injection Hb as -> ->;
        first [ left; split; [reflexivity | lia]
              | right; right; split; [right; left; reflexivity | tauto] ].
  - intros [[Hk Hid] | [[Hid Hk] | [[Hid | [Hid | []]] Hk]]].
    + destruct (decide (id = Z.of_nat (length bs))) as [-> | Hne].
      * right. rewrite Hk. tauto.
      * left. left. split; [exact Hk | lia].
    + left. right. left. split; assumption.
    + left. right. right. split; assumption.
    + right. subst id. destruct Hk as [-> | [-> | [-> | [-> | ->]]]]; tauto.
Qed.

Lemma handoff_render (m : Machine H M V P) :
  handoff_inv m -> handoff_inv (render upload m).
Proof.
  intros Hinv. destruct m as [[cs q dr ob th] d wk obs ce hp bs ft].
  unfold render. cbn -[free].
  destruct q as [| [c md] q]; [exact Hinv |].
  unfold handoff_inv, chunk_coords, queue_coords, chunk_serials, queue_serials in *.
  cbn -[free] in *. intros Hd. destruct (Hinv Hd) as (Hc & Hs & Hh). clear Hinv.
  rewrite !map_app. cbn [map chunk_x chunk_z chunk_serial].
  rewrite <- !app_assoc. cbn [app].
  split; [exact Hc |]. split; [exact Hs |].
  set (regs := map chunk_serial cs) in *.
  set (queued := map (fun d0 : immature_chunk_data_t H M V => chunk_serial (chunk d0)) q) in *.
  set (i := chunk_serial c) in *.
  assert (Hnd : NoDup (regs ++ i :: queued)) by (rewrite Hs; apply NoDup_seqZ).
  apply NoDup_app in Hnd as (_ & Hdisj & Hnd2).
  apply NoDup_cons in Hnd2 as [Hiq _].
  assert (Hir : i ∉ regs).
  { intros Hin. apply (Hdisj i Hin). left. }
  assert (Hin : 0 <= i < Z.of_nat (length bs)).
  { apply (serials_below regs (i :: queued) _ i Hs). right. left. }
  intros [k id]. rewrite !elem_of_free, elem_of_app, Hh.
  unfold owned_block. cbn [fst snd].
  rewrite elem_of_app, !elem_of_cons, !elem_of_nil.
  destruct (decide (id = i)) as [-> | Hne].
  - destruct k; intuition (first [congruence | lia]).
  - intuition congruence.
Qed.

Lemma handoff_inv_same (m m' : Machine H M V P) :
  chunks (world m') = chunks (world m) ->
  chunkMeshGenerationQueue (world m') = chunkMeshGenerationQueue (world m) ->
  heap m' = heap m -> builds m' = builds m -> destroyed m' = destroyed m ->
  handoff_inv m -> handoff_inv m'.
Proof.
  destruct m as [[cs q dr ob th] d wk obs ce hp bs ft].
  destruct m' as [[cs' q' dr' ob' th'] d' wk' obs' ce' hp' bs' ft'].
  cbn. intros -> -> -> -> ->. exact (fun Hinv => Hinv).
Qed.

Lemma handoff_step (m : Machine H M V P) (e : event P) :
  handoff_inv m -> handoff_inv (step' m e).
Proof.
  intros Hinv. unfold step.
  destruct (fault m); [exact Hinv |].
  destruct e as [o | | | p |].
  - destruct (destroyed m) eqn:Hd; [exact Hinv |].
    unfold startWorldGeneration.
    destruct (worldGenerationThread (world m)); [exact Hinv |].
    revert Hinv. apply handoff_inv_same; reflexivity.
  - unfold world_generation_fn_step.
    destruct (worker m) as [| [|] | | px pz x z |]; try exact Hinv.
    + destruct (destroyed m); [| destruct (_ >? _)];
        revert Hinv; apply handoff_inv_same; reflexivity.
    + destruct (destroyed m); [| destruct (_ >? _)];
        revert Hinv; apply handoff_inv_same; reflexivity.
    + destruct (destroyed m); [revert Hinv; apply handoff_inv_same; reflexivity |].
      pose proof (handoff_generateChunk m (Int32.add px (Int32.mul x CS))
                    (Int32.add pz (Int32.mul z CS)) Hinv) as Hg.
      destruct (fault (generateChunk build m _ _)); [exact Hg |].
      revert Hg. apply handoff_inv_same; reflexivity.
  - destruct (destroyed m); [exact Hinv |]. apply handoff_render. exact Hinv.
  - revert Hinv. apply handoff_inv_same; reflexivity.
  - destruct (destroyed m); [exact Hinv |].
    unfold handoff_inv, destroy_world. cbn. discriminate.
Qed.

Lemma handoff_fresh (p : vec3 P) : handoff_inv (fresh_machine p : Machine H M V P).
Proof.
  intros _. unfold fresh_machine. cbn.
  split; [reflexivity |]. split; [reflexivity |].
  intros [k id]. unfold owned_block. cbn [fst snd].
  rewrite !elem_of_nil. intuition lia.
Qed.

Lemma handoff_run (es : list (event P)) (m : Machine H M V P) :
  handoff_inv m -> handoff_inv (run' m es).
Proof.
  unfold run. revert m.
  induction es as [| e es IH]; intros m Hm; simpl; [exact Hm |].
  apply IH, handoff_step, Hm.
Qed.

(** X1: while the World exists, the registry followed by the queue is the list
    of the builds: every chunk built is registered or queued, once, in the
    order of its build. *)
Theorem handoff_is_fifo (p : vec3 P) (es : list (event P)) :
  destroyed (run' (fresh_machine p) es) = false ->
  chunk_coords (run' (fresh_machine p) es) ++ queue_coords (run' (fresh_machine p) es)
  = builds (run' (fresh_machine p) es).
Proof.
  intros Hd. exact (proj1 (handoff_run es _ (handoff_fresh p) Hd)).
Qed.

(** X2: while the World exists, the allocated blocks are exactly those of
    [owned_block]: in particular the queue record of every build made so far
    is still allocated, also when its payload was consumed long ago. *)
Theorem heap_while_alive (p : vec3 P) (es : list (event P)) (b : block) :
  destroyed (run' (fresh_machine p) es) = false ->
  b ∈ heap (run' (fresh_machine p) es)
  <-> owned_block (chunk_serials (run' (fresh_machine p) es))
                  (queue_serials (run' (fresh_machine p) es))
                  (Z.of_nat (length (builds (run' (fresh_machine p) es)))) b.
Proof.
  intros Hd.
  exact (proj2 (proj2 (handoff_run es _ (handoff_fresh p) Hd)) b).
Qed.

Lemma elem_of_drain_queue (q : list (immature_chunk_data_t H M V))
    (hp : list block) (b : block) :
  b ∈ drain_queue q hp
  <-> b ∈ hp
      /\ ~ (snd b ∈ map (fun d => chunk_serial (chunk d)) q
            /\ (fst b = IndicesBlock \/ fst b = VerticesBlock
                \/ fst b = VboDataBlock \/ fst b = ChunkBlock)).
Proof.
  unfold drain_queue. revert hp.
  induction q as [| d q IH]; intros hp; cbn -[free].
  - rewrite elem_of_nil. tauto.
  - rewrite IH, !elem_of_free, elem_of_cons. destruct b as [k id]. cbn [fst snd].
    destruct (decide (id = chunk_serial (chunk d))) as [-> | Hne].
    + destruct k; intuition congruence.
    + intuition congruence.
Qed.

Lemma elem_of_release_chunks (cs : list (chunk_t H V)) (hp : list block) (b : block) :
  b ∈ release_chunks cs hp
  <-> b ∈ hp
      /\ ~ (snd b ∈ map chunk_serial cs
            /\ (fst b = HeightMapBlock \/ fst b = MeshBlock \/ fst b = ChunkBlock)).
Proof.
  unfold release_chunks. revert hp.
  induction cs as [| c cs IH]; intros hp; cbn -[free].
  - rewrite elem_of_nil. tauto.
  - rewrite IH, !elem_of_free, elem_of_cons. destruct b as [k id]. cbn [fst snd].
    destruct (decide (id = chunk_serial c)) as [-> | Hne].
    + destruct k; intuition congruence.
    + intuition congruence.
Qed.

(** X3: the destructor releases everything a registered chunk owns and the mesh
    data of every queued payload; what stays allocated is the queue record of
    every build ever made and the height grid of every payload that was still
    queued. *)
Theorem destructor_leaks (p : vec3 P) (es : list (event P)) (b : block) :
  destroyed (run' (fresh_machine p) es) = false ->
  fault (run' (fresh_machine p) es) = None ->
  b ∈ heap (step' (run' (fresh_machine p) es) Destroy)
  <-> leaked_block (queue_serials (run' (fresh_machine p) es))
                   (Z.of_nat (length (builds (run' (fresh_machine p) es)))) b.
Proof.
  intros Hd Hf.
  destruct (handoff_run es _ (handoff_fresh p) Hd) as (_ & Hs & Hh).
  set (m := run' (fresh_machine p) es) in *.
  unfold step. rewrite Hf, Hd. unfold destroy_world. cbn [heap].
  rewrite elem_of_release_chunks, elem_of_drain_queue, Hh.
  fold (chunk_serials m). fold (queue_serials m).
  assert (Hnd : NoDup (chunk_serials m ++ queue_serials m))
    by (rewrite Hs; apply NoDup_seqZ).
  apply NoDup_app in Hnd as (_ & Hdisj & _).
  specialize (Hdisj (snd b)).
  unfold owned_block, leaked_block. destruct b as [k id]. cbn [fst snd] in *.
  destruct k; intuition congruence.
Qed.

Lemma mesh_inv_same (m m' : Machine H M V P) :
  world m' = world m -> mesh_inv m -> mesh_inv m'.
Proof. unfold mesh_inv. intros ->. exact (fun Hinv => Hinv). Qed.

Lemma mesh_inv_step (m : Machine H M V P) (e : event P) :
  mesh_inv m -> mesh_inv (step' m e).
Proof.
  intros Hinv. unfold step.
  destruct (fault m); [exact Hinv |].
  destruct e as [o | | | p |].
  - destruct (destroyed m); [exact Hinv |].
    unfold startWorldGeneration.
    destruct (worldGenerationThread (world m)); exact Hinv.
  - unfold world_generation_fn_step.
    destruct (worker m) as [| [|] | | px pz x z |]; try exact Hinv.
    + destruct (destroyed m); [| destruct (_ >? _)]; exact Hinv.
    + destruct (destroyed m); [| destruct (_ >? _)]; exact Hinv.
    + destruct (destroyed m); [exact Hinv |].
      assert (Hg : mesh_inv (generateChunk build m (Int32.add px (Int32.mul x CS))
                                           (Int32.add pz (Int32.mul z CS)))).
      { unfold generateChunk.
        destruct (registered _ _ _); [exact Hinv |].
        destruct (build _ _) as [[hm md] |]; [| exact Hinv].
        destruct Hinv as [Hc Hq]. split; [exact Hc |]. cbn.
        apply Forall_app. split; [exact Hq |].
        apply Forall_cons. split; [reflexivity | apply Forall_nil_2]. }
      destruct (fault (generateChunk build m _ _)); exact Hg.
  - destruct (destroyed m); [exact Hinv |].
    destruct m as [[cs q dr ob th] d wk obs ce hp bs ft].
    unfold render, mesh_inv in *. cbn -[free] in *. destruct Hinv as [Hc Hq].
    destruct q as [| data q]; [split; assumption |].
    apply Forall_cons in Hq as [_ Hq].
    split; [| exact Hq]. cbn.
    apply Forall_app. split; [exact Hc |].
    apply Forall_cons. split; [eexists; reflexivity | apply Forall_nil_2].
  - exact Hinv.
  - destruct (destroyed m); [exact Hinv |].
    split; apply Forall_nil_2.
Qed.

(** X4: [render] draws [chunk->mesh] of every registered chunk: in every
    execution every registered chunk has its mesh, and a queued chunk has
    none before its payload is consumed. *)
Theorem registered_chunks_have_mesh (p : vec3 P) (es : list (event P)) :
  mesh_inv (run' (fresh_machine p) es).
Proof.
  unfold run.
  assert (Hgen : forall m : Machine H M V P,
             mesh_inv m -> mesh_inv (fold_left step' es m)).
  { induction es as [| e es' IH]; intros m Hm; simpl; [exact Hm |].
    apply IH, mesh_inv_step, Hm. }
  apply Hgen. split; apply Forall_nil_2.
Qed.

(** Once the thread handle is set, every later state has it set or belongs
    to a destroyed World. *)
Lemma generating_step (m : Machine H M V P) (e : event P) :
  worldGenerationThread (world m) = true \/ destroyed m = true ->
  worldGenerationThread (world (step' m e)) = true \/ destroyed (step' m e) = true.
Proof.
  intros Hm. unfold step.
  destruct (fault m) eqn:Hf; [exact Hm |].
  destruct (destroyed m) eqn:Hd.
  - right. destruct e as [o | | | p |]; try first [exact Hd | reflexivity].
    unfold world_generation_fn_step.
    destruct (worker m) as [| [|] | | px pz x z |]; rewrite ?Hd;
      first [exact Hd | reflexivity].
  - destruct Hm as [Ht | Hm]; [| discriminate].
    destruct e as [o | | | p |].
    + left. unfold startWorldGeneration. rewrite Ht. exact Ht.
    + left. unfold world_generation_fn_step.
      destruct (worker m) as [| [|] | | px pz x z |]; try exact Ht; rewrite Hd.
      * destruct (_ >? _); exact Ht.
      * destruct (_ >? _); exact Ht.
      * unfold generateChunk.
        destruct (registered _ _ _).
        -- rewrite Hf. exact Ht.
        -- destruct (build _ _) as [[hm md] |]; cbn; rewrite ?Hf; exact Ht.
    + left. unfold render.
      destruct (chunkMeshGenerationQueue (world m)); [exact Ht |].
      cbn. exact Ht.
    + left. exact Ht.
    + right. reflexivity.
Qed.

Lemma generating_run (es : list (event P)) (m : Machine H M V P) :
  worldGenerationThread (world m) = true \/ destroyed m = true ->
  worldGenerationThread (world (run' m es)) = true \/ destroyed (run' m es) = true.
Proof.
  unfold run. revert m.
  induction es as [| e es IH]; intros m Hm; simpl; [exact Hm |].
  apply IH, generating_step, Hm.
Qed.

(** X5: a call of [startWorldGeneration] on a World whose thread handle is
    set returns it unchanged, whatever its argument, and so does every call
    made later in the execution: nothing that follows lets a start clear the
    drawables and the world objects again or spawn a second worker. *)
Theorem start_twice (m : Machine H M V P) (es : list (event P)) (o : obs_ptr) :
  worldGenerationThread (world m) = true ->
  step' m (StartWorldGeneration o) = m
  /\ step' (run' m es) (StartWorldGeneration o) = run' m es.
Proof.
  intros Ht.
  assert (Hnoop : forall m' : Machine H M V P,
            worldGenerationThread (world m') = true \/ destroyed m' = true ->
            step' m' (StartWorldGeneration o) = m').
  { intros m' Hm'. unfold step.
    destruct (fault m'); [reflexivity |].
    destruct (destroyed m') eqn:Hd; [reflexivity |].
    unfold startWorldGeneration.
    destruct Hm' as [-> | Hm']; [reflexivity | discriminate]. }
  split; [apply Hnoop; left; exact Ht |].
  apply Hnoop, generating_run. left. exact Ht.
Qed.

Lemma registry_unchanged (cs cs' : list (chunk_t H V)) (e : event P) :
  cs' = cs ->
  exists added,
    cs' = cs ++ added /\ (length added <= 1)%nat /\ (added <> [] -> e = Render).
Proof.
  intros ->. exists (@nil (chunk_t H V)). rewrite app_nil_r.
  split; [reflexivity |]. split; [simpl; lia |].
  intros Hne. contradiction Hne. reflexivity.
Qed.

(** X6: only [render] adds to the registry, one chunk per frame at most; apart
    from the destructor no operation removes or reorders registered chunks. *)
Theorem registry_grows_by_render (m : Machine H M V P) (e : event P) :
  e <> Destroy ->
  exists added,
    chunks (world (step' m e)) = chunks (world m) ++ added
    /\ (length added <= 1)%nat
    /\ (added <> [] -> e = Render).
Proof.
  intros He. unfold step.
  destruct (fault m); [apply registry_unchanged; reflexivity |].
  destruct e as [o | | | p |]; [| | | | contradiction].
  - apply registry_unchanged.
    destruct (destroyed m); [reflexivity |].
    unfold startWorldGeneration.
    destruct (worldGenerationThread (world m)); reflexivity.
  - apply registry_unchanged.
    unfold world_generation_fn_step.
    destruct (worker m) as [| [|] | | px pz x z |]; try reflexivity.
    + destruct (destroyed m); [| destruct (_ >? _)]; reflexivity.
    + destruct (destroyed m); [| destruct (_ >? _)]; reflexivity.
    + destruct (destroyed m); [reflexivity |].
      assert (Hg : chunks (world (generateChunk build m
                                    (Int32.add px (Int32.mul x CS))
                                    (Int32.add pz (Int32.mul z CS))))
                   = chunks (world m)).
      { unfold generateChunk. destruct (registered _ _ _); [reflexivity |].
        destruct (build _ _) as [[hm md] |]; reflexivity. }
      destruct (fault (generateChunk build m _ _)); exact Hg.
  - destruct (destroyed m); [apply registry_unchanged; reflexivity |].
    unfold render.
    destruct (chunkMeshGenerationQueue (world m)) as [| d q].
    + apply registry_unchanged. reflexivity.
    + eexists (cons _ nil). split; [reflexivity |].
      split; [simpl; lia | reflexivity].
  - apply registry_unchanged. reflexivity.
Qed.

Lemma fault_ok_step (m : Machine H M V P) (e : event P) :
  (forall x z, is_Some (build x z)) -> fault_ok m -> fault_ok (step' m e).
Proof.
  intros Hbuild Hok. unfold step.
  destruct (fault m) eqn:Hf; [exact Hok |].
  destruct e as [o | | | p |].
  - destruct (destroyed m); [exact Hok |].
    unfold startWorldGeneration.
    destruct (worldGenerationThread (world m)); [exact Hok |].
    left. first [exact Hf | reflexivity].
  - unfold world_generation_fn_step.
    destruct (worker m) as [| [|] | | px pz x z |]; try exact Hok.
    + destruct (destroyed m) eqn:Hd; [right; split; [reflexivity | exact Hd] |].
      destruct (_ >? _); left; first [exact Hf | reflexivity].
    + destruct (destroyed m) eqn:Hd; [right; split; [reflexivity | exact Hd] |].
      destruct (_ >? _); left; first [exact Hf | reflexivity].
    + destruct (destroyed m) eqn:Hd; [right; split; [reflexivity | exact Hd] |].
      assert (Hg : fault (generateChunk build m (Int32.add px (Int32.mul x CS))
                                        (Int32.add pz (Int32.mul z CS))) = None).
      { unfold generateChunk. destruct (registered _ _ _); [exact Hf |].
        destruct (Hbuild (Int32.add px (Int32.mul x CS))
                         (Int32.add pz (Int32.mul z CS))) as [[hm md] ->].
        exact Hf. }
      rewrite Hg. left. exact Hg.
  - destruct (destroyed m); [exact Hok |].
    unfold render.
    destruct (chunkMeshGenerationQueue (world m)); left; first [exact Hf | reflexivity].
  - left. first [exact Hf | reflexivity].
  - destruct (destroyed m); [exact Hok |]. left. first [exact Hf | reflexivity].
Qed.

Lemma fault_ok_run (es : list (event P)) (m : Machine H M V P) :
  (forall x z, is_Some (build x z)) -> fault_ok m -> fault_ok (run' m es).
Proof.
  intros Hbuild. unfold run. revert m.
  induction es as [| e es IH]; intros m Hm; simpl; [exact Hm |].
  apply IH, fault_ok_step; assumption.
Qed.

(** The scan of [generateChunk] finds exactly the registered coordinates. *)
Lemma registered_spec (x z : Z) (cs : list (chunk_t H V)) :
  registered x z cs = true <-> (x, z) ∈ map (fun c => (chunk_x c, chunk_z c)) cs.
Proof.
  unfold registered. induction cs as [| c cs IH]; cbn [existsb map].
  - rewrite elem_of_nil. split; [discriminate | contradiction].
  - rewrite elem_of_cons, orb_true_iff, andb_true_iff, IH, !Z.eqb_eq.
    split.
    + intros [[-> ->] | Hin]; [left; reflexivity | right; exact Hin].
    + intros [Heq | Hin]; [left | right; exact Hin].
      injection Heq as -> ->. split; reflexivity.
Qed.

Lemma lockstep_inv_same (m m' : Machine H M V P) :
  chunks (world m') = chunks (world m) ->
  chunkMeshGenerationQueue (world m') = chunkMeshGenerationQueue (world m) ->
  builds m' = builds m -> destroyed m' = destroyed m ->
  lockstep_inv m -> lockstep_inv m'.
Proof.
  destruct m as [[cs q dr ob th] d wk obs ce hp bs ft].
  destruct m' as [[cs' q' dr' ob' th'] d' wk' obs' ce' hp' bs' ft'].
  cbn. intros -> -> -> ->. exact (fun Hinv => Hinv).
Qed.

Lemma render_nothing_queued (m : Machine H M V P) :
  chunkMeshGenerationQueue (world m) = [] -> step' m Render = m.
Proof.
  intros Hq. unfold step. destruct (fault m); [reflexivity |].
  destruct (destroyed m); [reflexivity |].
  unfold render. rewrite Hq. reflexivity.
Qed.

Lemma lockstep_round (m : Machine H M V P) :
  lockstep_inv m -> lockstep_inv (step' (step' m WorkerStep) Render).
Proof.
  intros Hinv. pose proof Hinv as (Hd & Hq & Hc & Hnd).
  assert (Hsame : forall m1 : Machine H M V P,
             chunks (world m1) = chunks (world m) ->
             chunkMeshGenerationQueue (world m1) = chunkMeshGenerationQueue (world m) ->
             builds m1 = builds m -> destroyed m1 = destroyed m ->
             lockstep_inv (step' m1 Render)).
  { intros m1 H1 H2 H3 H4. rewrite render_nothing_queued by congruence.
    apply (lockstep_inv_same m); assumption. }
  unfold step at 2. destruct (fault m) eqn:Hf; [apply Hsame; reflexivity |].
  unfold world_generation_fn_step.
  destruct (worker m) as [| [|] | | px pz x z |]; try (apply Hsame; reflexivity).
  - rewrite Hd. destruct (_ >? _); apply Hsame; reflexivity.
  - rewrite Hd. destruct (_ >? _); apply Hsame; reflexivity.
  - rewrite Hd.
    set (cx := Int32.add px (Int32.mul x CS)).
    set (cz := Int32.add pz (Int32.mul z CS)).
    unfold generateChunk.
    destruct (registered cx cz (chunks (world m))) eqn:Hreg;
      [rewrite ?Hf; apply Hsame; reflexivity |].
    destruct (build cx cz) as [[hm md] |]; [| apply Hsame; reflexivity].
    cbn [fault]. rewrite ?Hf. rewrite Hq.
    unfold step, set_worker. cbn [fault destroyed world]. rewrite ?Hf, ?Hd.
    unfold render. cbn -[free].
    unfold lockstep_inv, chunk_coords. cbn -[free].
    split; [reflexivity |]. split; [reflexivity |]. split.
    + rewrite map_app. unfold chunk_coords in Hc. rewrite Hc. reflexivity.
    + apply NoDup_app. split; [exact Hnd |]. split; [| apply NoDup_singleton].
      intros c Hc1 Hc2. apply list_elem_of_singleton in Hc2. subst c.
      rewrite <- Hc in Hc1. apply registered_spec in Hc1. congruence.
Qed.

Lemma lockstep_run (moves : list (option (vec3 P))) (m : Machine H M V P) :
  lockstep_inv m -> lockstep_inv (run' m (lockstep_events moves)).
Proof.
  unfold run, lockstep_events. revert m.
  induction moves as [| [p |] moves IH]; intros m Hm; cbn [flat_map app fold_left].
  - exact Hm.
  - apply IH. unfold step.
    destruct (fault m); [exact Hm |]. exact Hm.
  - apply IH. apply lockstep_round. exact Hm.
Qed.

(** X7: when a frame is rendered after every step of the worker, no coordinate
    is ever built twice and the queue is empty after every round, wherever
    the observation point moves. *)
Theorem lockstep_builds_once (p : vec3 P) (o : obs_ptr)
    (moves : list (option (vec3 P))) :
  let m := run' (fresh_machine p)
                (StartWorldGeneration o :: lockstep_events moves) in
  NoDup (builds m) /\ NoDup (chunk_coords m) /\ queue_coords m = [].
Proof.
  cbv zeta. unfold run. cbn [fold_left].
  pose proof (lockstep_run moves
                (step' (fresh_machine p) (StartWorldGeneration o))) as Hinv.
  unfold run in Hinv.
  destruct Hinv as (_ & Hq & Hc & Hnd).
  { unfold lockstep_inv. cbn. repeat split. apply NoDup_nil_2. }
  split; [exact Hnd |]. split; [rewrite Hc; exact Hnd |].
  unfold queue_coords. rewrite Hq. reflexivity.
Qed.

End HandOff.

(** ** The mesh data of a chunk *)

Lemma lookup_map {A B : Type} (f : A -> B) (l : list A) (i : nat) :
  map f l !! i = option_map f (l !! i).
Proof.
  revert i. induction l as [| a l IH]; intros [| i]; cbn; try reflexivity.
  apply IH.
Qed.

(** Row-major numbering of a grid of [n] rows and [m] columns. *)
Lemma lookup_grid {B : Type} (f : Z -> Z -> B) (n m i j : Z) :
  0 <= i < n -> 0 <= j < m ->
  flat_map (fun i => map (f i) (seqZ 0 m)) (seqZ 0 n) !! Z.to_nat (i * m + j)
  = Some (f i j).
Proof.
  intros Hi Hj.
  destruct (flat_map_block (fun i => map (f i) (seqZ 0 m)) (Z.to_nat m) n i)
    as [rest Hdrop]; [| lia |].
  { intros k. rewrite length_map, length_seqZ. reflexivity. }
  replace (Z.to_nat (i * m + j)) with (Z.to_nat i * Z.to_nat m + Z.to_nat j)%nat
    by nia.
  rewrite <- lookup_drop, Hdrop.
  rewrite lookup_app_l by (rewrite length_map, length_seqZ; lia).
  rewrite lookup_map, lookup_seqZ_lt by lia.
  cbn. f_equal. f_equal. lia.
Qed.

Lemma wrap32_idempotent (n : Z) : Int32.wrap32 (Int32.wrap32 n) = Int32.wrap32 n.
Proof. apply wrap32_id, wrap32_in_range. Qed.

Section MeshData.
Context {F : Type} `{FloatOps F}.
Variable T : Terrain F.
Variable normalize : vec3 F -> vec3 F.

Local Abbreviation CS := (CHUNK_SIZE T).

Hypothesis HCS : 0 < CS.
Hypothesis Hmax : CS * CS * 6 <= Int32.max_int.

Lemma expected_vertices_lookup (x z i j : Z) :
  0 <= i <= CS -> 0 <= j <= CS ->
  expected_vertices T normalize x z !! Z.to_nat (i * (CS + 1) + j)
  = Some (grid_vertex T normalize x z i j).
Proof.
  intros Hi Hj. unfold expected_vertices.
  apply (lookup_grid (fun i j => grid_vertex T normalize x z i j)); lia.
Qed.

Lemma expected_heights_lookup (x z i j : Z) :
  0 <= i < CS -> 0 <= j < CS ->
  expected_heights T normalize x z !! Z.to_nat (i * CS + j)
  = Some (v_y F (grid_vertex T normalize x z i j)).
Proof.
  intros Hi Hj. unfold expected_heights.
  apply (lookup_grid (fun i j => v_y F (grid_vertex T normalize x z i j))); lia.
Qed.

(** X8: the build emits one vertex per grid point, overlap row and column
    included: (CHUNK_SIZE+1)² vertices, all written, the vertex of grid point
    (i, j) at position i * (CHUNK_SIZE+1) + j. *)
Theorem build_chunk_vertices (x z : Z) :
  exists heights data,
    build_chunk T normalize x z = Some (heights, data)
    /\ length (vertices data) = Z.to_nat ((CS + 1) * (CS + 1))
    /\ vertices_count data = (CS + 1) * (CS + 1)
    /\ forall i j, 0 <= i <= CS -> 0 <= j <= CS ->
        vertices data !! Z.to_nat (i * (CS + 1) + j)
        = Some (Some (grid_vertex T normalize x z i j)).
Proof.
  eexists. eexists. split; [apply build_chunk_eq; assumption |].
  cbn [vertices vertices_count].
  split; [rewrite length_map; apply expected_vertices_length; assumption |].
  split; [reflexivity |].
  intros i j Hi Hj. rewrite lookup_map, expected_vertices_lookup by assumption.
  reflexivity.
Qed.

(** X9: every cell of the index array holds an index, and every index refers to
    a vertex that was written. *)
Theorem build_chunk_indices_refer_to_vertices (x z : Z) :
  exists heights data,
    build_chunk T normalize x z = Some (heights, data)
    /\ forall c, c ∈ indices data ->
        exists k v, c = Some k /\ 0 <= k
                    /\ vertices data !! Z.to_nat k = Some (Some v).
Proof.
  eexists. eexists. split; [apply build_chunk_eq; assumption |].
  cbn [vertices indices]. intros c Hc.
  apply list_elem_of_In, in_map_iff in Hc as (k & <- & Hk).
  pose proof (expected_indices_bound CS) as Hall.
  rewrite Forall_forall in Hall. specialize (Hall k (proj2 (list_elem_of_In _ _) Hk)).
  assert (Hlt : (Z.to_nat k < length (expected_vertices T normalize x z))%nat).
  { rewrite expected_vertices_length by assumption. lia. }
  apply lookup_lt_is_Some in Hlt as [v Hv].
  exists k, v. split; [reflexivity |]. split; [lia |].
  rewrite lookup_map, Hv. reflexivity.
Qed.

(** X10: the height grid kept with the chunk agrees with the mesh: its entry for
    cell (i, j) is the height of the vertex of grid point (i, j). *)
Theorem build_chunk_heights_match_vertices (x z : Z) :
  exists heights data,
    build_chunk T normalize x z = Some (heights, data)
    /\ forall i j, 0 <= i < CS -> 0 <= j < CS ->
        exists v,
          vertices data !! Z.to_nat (i * (CS + 1) + j) = Some (Some v)
          /\ heights !! Z.to_nat (i * CS + j) = Some (Some (v_y F v)).
Proof.
  eexists. eexists. split; [apply build_chunk_eq; assumption |].
  cbn [vertices]. intros i j Hi Hj.
  exists (grid_vertex T normalize x z i j). split.
  - rewrite lookup_map, expected_vertices_lookup by lia. reflexivity.
  - rewrite lookup_map, expected_heights_lookup by lia. reflexivity.
Qed.

Lemma grid_vertex_next_x (x z j : Z) :
  grid_vertex T normalize x z CS j
  = grid_vertex T normalize (Int32.add x CS) z 0 j.
Proof.
  unfold grid_vertex, sample_x, Int32.add.
  rewrite Z.add_0_r, wrap32_idempotent. reflexivity.
Qed.

Lemma grid_vertex_next_z (x z i : Z) :
  grid_vertex T normalize x z i CS
  = grid_vertex T normalize x (Int32.add z CS) i 0.
Proof.
  unfold grid_vertex, sample_x, Int32.add.
  rewrite Z.add_0_r, wrap32_idempotent. reflexivity.
Qed.

(** X11: neighbouring chunks meet without a seam: the last row of vertices of
    the chunk at (x, z) is the first row of the chunk one CHUNK_SIZE further
    along x, position, height and normal alike, and the same holds for the
    last column along z. *)
Theorem build_chunk_seamless (x z j : Z) :
  0 <= j <= CS ->
  exists h d hx dx hz dz v w,
    build_chunk T normalize x z = Some (h, d)
    /\ build_chunk T normalize (Int32.add x CS) z = Some (hx, dx)
    /\ build_chunk T normalize x (Int32.add z CS) = Some (hz, dz)
    /\ vertices d !! Z.to_nat (CS * (CS + 1) + j) = Some (Some v)
    /\ vertices dx !! Z.to_nat (0 * (CS + 1) + j) = Some (Some v)
    /\ vertices d !! Z.to_nat (j * (CS + 1) + CS) = Some (Some w)
    /\ vertices dz !! Z.to_nat (j * (CS + 1) + 0) = Some (Some w).
Proof.
  intros Hj. do 6 eexists.
  exists (grid_vertex T normalize x z CS j), (grid_vertex T normalize x z j CS).
  split; [apply build_chunk_eq; assumption |].
  split; [apply build_chunk_eq; assumption |].
  split; [apply build_chunk_eq; assumption |].
  cbn [vertices].
  rewrite !lookup_map, !expected_vertices_lookup by lia.
  rewrite <- grid_vertex_next_x, <- grid_vertex_next_z.
  repeat split; reflexivity.
Qed.

End MeshData.

(** ** Normals *)

Lemma Rsqr_sum_pos (a b c : R) : (0 < b)%R -> (0 < a * a + b * b + c * c)%R.
Proof. intros Hb. nra. Qed.

(** X12: with a positive finite-difference step the normal has length 1 at every
    sample point and points upward. *)
Theorem normal_unit_and_upward (T : Terrain R) (x z : R) :
  (0 < CHUNK_GENERATION_NORMAL_DELTA T)%R ->
  glm_length (getNormalVector T glm_normalize x z) = 1%R
  /\ (0 < vy (getNormalVector T glm_normalize x z))%R.
Proof.
  intros Hdelta. unfold getNormalVector.
  set (a := fsub _ _). set (c := fsub _ _).
  change (fmul (flit 2) (CHUNK_GENERATION_NORMAL_DELTA T))
    with (Q2R 2 * CHUNK_GENERATION_NORMAL_DELTA T)%R.
  rewrite Q2R_two.
  set (b := (2 * CHUNK_GENERATION_NORMAL_DELTA T)%R).
  assert (Hb : (0 < b)%R) by (unfold b; lra).
  assert (Hd : (0 < dot (Vec3 a b c) (Vec3 a b c))%R)
    by (unfold dot; cbn [vx vy vz]; apply Rsqr_sum_pos; exact Hb).
  split; [apply glm_normalize_unit; exact Hd |].
  unfold glm_normalize. cbn [vx vy vz].
  apply Rmult_lt_0_compat; [exact Hb |].
  apply Rinv_0_lt_compat, sqrt_lt_R0. exact Hd.
Qed.

Lemma normal_unit_and_upward_witness :
  glm_length (getNormalVector flat_terrain glm_normalize 3%R 4%R) = 1%R
  /\ (0 < vy (getNormalVector flat_terrain glm_normalize 3%R 4%R))%R.
Proof.
  apply (normal_unit_and_upward flat_terrain 3%R 4%R).
  simpl. unfold Q2R. simpl. lra.
Defined.

Section ConstantNoise.
Context {F : Type} `{FloatOps F}.
Variable T : Terrain F.
Hypothesis Hconst : forall a b a' b' : F, noise T a b = noise T a' b'.

Lemma octave_loop_constant_noise (x z x' z' : F) (octaves : list (F * F)) (acc : F) :
  octave_loop T x z octaves acc = octave_loop T x' z' octaves acc.
Proof.
  unfold octave_loop. revert acc.
  induction octaves as [| o os IH]; intros acc; cbn [fold_left]; [reflexivity |].
  rewrite (Hconst (fdiv x (fst o)) (fdiv z (fst o)) (fdiv x' (fst o)) (fdiv z' (fst o))).
  apply IH.
Qed.

Lemma getChunkHeight_constant_noise (x z x' z' : F) :
  getChunkHeight T x z = getChunkHeight T x' z'.
Proof.
  unfold getChunkHeight, getBiomeNoise. cbv zeta.
  rewrite (octave_loop_constant_noise (fdiv x (flit 10)) (fdiv z (flit 10))
             (fdiv x' (flit 10)) (fdiv z' (flit 10))).
  rewrite (Hconst (fdiv (fdiv x (flit 10)) (flit 100))
                  (fdiv (fdiv z (flit 10)) (flit 100))
                  (fdiv (fdiv x' (flit 10)) (flit 100))
                  (fdiv (fdiv z' (flit 10)) (flit 100))).
  reflexivity.
Qed.

End ConstantNoise.

(** X13: where the noise does not vary the terrain is level and the normal is
    the vertical unit vector. *)
Theorem normal_of_level_terrain (T : Terrain R) (x z : R) :
  (forall a b a' b' : R, noise T a b = noise T a' b') ->
  (0 < CHUNK_GENERATION_NORMAL_DELTA T)%R ->
  getNormalVector T glm_normalize x z = Vec3 0%R 1%R 0%R.
Proof.
  intros Hconst Hdelta. unfold getNormalVector.
  set (delta := CHUNK_GENERATION_NORMAL_DELTA T) in *.
  rewrite (getChunkHeight_constant_noise T Hconst (fsub x delta) z (fadd x delta) z).
  rewrite (getChunkHeight_constant_noise T Hconst x (fsub z delta) x (fadd z delta)).
  change (fmul (flit 2) delta) with (Q2R 2 * delta)%R. rewrite Q2R_two.
  cbn [fsub R_FloatOps]. rewrite !Rminus_diag.
  unfold glm_normalize, dot. cbn [vx vy vz].
  replace (0 * 0 + 2 * delta * (2 * delta) + 0 * 0)%R
    with ((2 * delta) * (2 * delta))%R by ring.
  rewrite sqrt_square by lra.
  f_equal; [ring | | ring]. apply Rinv_r. lra.
Qed.

Lemma normal_of_level_terrain_witness :
  getNormalVector flat_terrain glm_normalize 3%R 4%R = Vec3 0%R 1%R 0%R.
Proof.
  apply (normal_of_level_terrain flat_terrain 3%R 4%R).
  - intros a b a' b'. reflexivity.
  - simpl. unfold Q2R. simpl. lra.
Defined.

(** ** The centre of the ring *)

(** X14: aligning an aligned coordinate changes nothing, and the centre is never
    farther from zero than the position. *)
Theorem chunk_align_idempotent (CS p : Z) :
  0 < CS -> Int32.in_range p ->
  chunk_align CS (chunk_align CS p) = chunk_align CS p
  /\ (CS | chunk_align CS p)
  /\ Z.abs (chunk_align CS p) <= Z.abs p.
Proof.
  intros HCS Hp. rewrite (chunk_align_exact CS p HCS Hp).
  assert (Hboth : Z.abs (CS * (p ÷ CS)) <= Z.abs p
                  /\ Int32.in_range (CS * (p ÷ CS))).
  { unfold Int32.in_range, Int32.min_int, Int32.max_int in *.
    destruct (Z_lt_le_dec p 0) as [Hneg | Hpos].
    - destruct (Zquot_neg_bounds p CS HCS Hneg). nia.
    - destruct (Zquot_nonneg_bounds p CS HCS Hpos). nia. }
  destruct Hboth as [Habs Hr].
  split; [| split; [apply Z.divide_factor_l | exact Habs]].
  rewrite (chunk_align_exact CS _ HCS Hr).
  f_equal. rewrite Z.mul_comm. apply Z.quot_mul. lia.
Qed.

Lemma chunk_align_idempotent_witness :
  chunk_align 16 (chunk_align 16 (-37)) = chunk_align 16 (-37)
  /\ (16 | chunk_align 16 (-37))
  /\ Z.abs (chunk_align 16 (-37)) <= Z.abs (-37).
Proof.
  apply (chunk_align_idempotent 16 (-37)).
  - lia.
  - unfold Int32.in_range, Int32.min_int, Int32.max_int. lia.
Defined.

(** On one axis: the samples of one of the three chunks at the offsets -1,
    0 and 1 from the centre enclose the position. *)
Lemma axis_cover (CS : Z) (p : Q) :
  0 < CS -> Z.abs (Qtrunc p) + 2 * CS <= Int32.max_int ->
  exists x, - 1 <= x <= 1
    /\ (sample_x (Int32.add (center_axis CS p) (Int32.mul x CS)) 0 <= p)%Q
    /\ (p <= sample_x (Int32.add (center_axis CS p) (Int32.mul x CS)) CS)%Q.
Proof.
  intros HCS Hb. unfold center_axis. simpl to_int.
  set (t := Qtrunc p) in *.
  assert (Ht : Int32.in_range t)
    by (unfold Int32.in_range, Int32.min_int, Int32.max_int in *; lia).
  rewrite (chunk_align_exact CS t HCS Ht).
  set (c := CS * (t ÷ CS)).
  assert (Hc : Z.abs c <= Z.abs t /\ (0 <= t -> c <= t < c + CS)
               /\ (t <= 0 -> c - CS < t <= c)).
  { unfold c. destruct (Z_lt_le_dec t 0) as [Hneg | Hpos].
    - destruct (Zquot_neg_bounds t CS HCS Hneg). repeat split; nia.
    - destruct (Zquot_nonneg_bounds t CS HCS Hpos) as [Hq Hqb].
      repeat split; nia. }
  destruct Hc as (Habs & Hnonneg & Hnonpos).
  assert (Hsample : forall x i, - 1 <= x <= 1 -> 0 <= i <= CS ->
            sample_x (Int32.add c (Int32.mul x CS)) i
            = (inject_Z (c + x * CS + i) - (1 # 2))%Q).
  { intros x i Hx Hi. unfold sample_x. simpl.
    assert (Hm : Int32.mul x CS = x * CS).
    { apply int_mul_id.
      unfold Int32.in_range, Int32.min_int, Int32.max_int in *. nia. }
    rewrite Hm.
    assert (Ha : Int32.add c (x * CS) = c + x * CS).
    { apply int_add_id.
      unfold Int32.in_range, Int32.min_int, Int32.max_int in *. nia. }
    rewrite Ha.
    rewrite int_add_id; [reflexivity |].
    unfold Int32.in_range, Int32.min_int, Int32.max_int in *. nia. }
  assert (Hq : forall a b : Z, a <= b -> (inject_Z a <= inject_Z b)%Q)
    by (intros a b Hab; rewrite <- Zle_Qle; exact Hab).
  assert (Hp : (inject_Z (c - CS) - (1 # 2) <= p)%Q
               /\ (p <= inject_Z (c + 2 * CS) - (1 # 2))%Q).
  { destruct (Qlt_le_dec p 0) as [Hneg | Hpos].
    - destruct (Qtrunc_neg p Hneg) as (Ht0 & Hlo & Hhi). fold t in Ht0, Hlo, Hhi.
      pose proof (Hq (c - CS) (t - 1) ltac:(lia)) as H1.
      pose proof (Hq (t + 1) (c + 2 * CS) ltac:(lia)) as H2.
      rewrite inject_Z_plus in H2. change (inject_Z 1) with 1%Q in H2.
      lra.
    - destruct (Qtrunc_nonneg p Hpos) as (Ht0 & Hlo & Hhi). fold t in Ht0, Hlo, Hhi.
      pose proof (Hq (c - CS) t ltac:(lia)) as H1.
      pose proof (Hq (t + 1 + 1) (c + 2 * CS) ltac:(lia)) as H2.
      rewrite inject_Z_plus in H2. change (inject_Z 1) with 1%Q in H2.
      lra. }
  destruct Hp as [Hlow Hhigh].
  destruct (Qlt_le_dec p (inject_Z c - (1 # 2))) as [Hleft | Hmid].
  - exists (-1). split; [lia |].
    rewrite !Hsample by lia.
    replace (c + -1 * CS + 0) with (c - CS) by ring.
    replace (c + -1 * CS + CS) with c by ring.
    split; [exact Hlow | apply Qlt_le_weak, Hleft].
  - destruct (Qlt_le_dec (inject_Z (c + CS) - (1 # 2)) p) as [Hright | Hin].
    + exists 1. split; [lia |].
      rewrite !Hsample by lia.
      replace (c + 1 * CS + 0) with (c + CS) by ring.
      replace (c + 1 * CS + CS) with (c + 2 * CS) by ring.
      split; [apply Qlt_le_weak, Hright | exact Hhigh].
    + exists 0. split; [lia |].
      rewrite !Hsample by lia.
      replace (c + 0 * CS + 0) with c by ring.
      replace (c + 0 * CS + CS) with (c + CS) by ring.
      split; assumption.
Qed.

(** X15: with a radius of 2 or more, and away from the ends of the integer
    range, the observation point stands on one of the chunks the worker
    requests in the pass: among the coordinates of the ring, computed with
    the worker's wrapping arithmetic, there is one whose grid of samples,
    from the first to the last on each axis, encloses the position. *)
Theorem observer_inside_ring (CS r : Z) (p q : Q) :
  0 < CS -> 2 <= r <= 2 ^ 30 ->
  Z.abs (Qtrunc p) + 2 * CS <= Int32.max_int ->
  Z.abs (Qtrunc q) + 2 * CS <= Int32.max_int ->
  exists c, c ∈ ring_coords CS r (center_axis CS p) (center_axis CS q)
    /\ (sample_x (fst c) 0 <= p <= sample_x (fst c) CS)%Q
    /\ (sample_x (snd c) 0 <= q <= sample_x (snd c) CS)%Q.
Proof.
  intros HCS Hr Hp Hq.
  destruct (axis_cover CS p HCS Hp) as (x & Hx & Hxl & Hxh).
  destruct (axis_cover CS q HCS Hq) as (z & Hz & Hzl & Hzh).
  exists (ring_coord CS (center_axis CS p) (center_axis CS q) x z).
  split; [| split; split; assumption].
  unfold ring_coords. apply list_elem_of_In, in_flat_map.
  exists x. split.
  - apply list_elem_of_In, elem_of_seqZ. lia.
  - apply in_map, list_elem_of_In, elem_of_seqZ. lia.
Qed.

Lemma observer_inside_ring_witness :
  exists c, c ∈ ring_coords 16 2 (center_axis 16 (157 # 10)%Q)
                            (center_axis 16 (- 37 # 2)%Q)
    /\ (sample_x (fst c) 0 <= 157 # 10 <= sample_x (fst c) 16)%Q
    /\ (sample_x (snd c) 0 <= - 37 # 2 <= sample_x (snd c) 16)%Q.
Proof.
  apply (observer_inside_ring 16 2 (157 # 10) (- 37 # 2)).
  - lia.
  - lia.
  - vm_compute. discriminate.
  - vm_compute. discriminate.
Defined.

(** ** One pass of the worker *)

Section WorkerPass.
Context {H M V P : Type}.
Variable build : Z -> Z -> option (H * M).
Variable upload : M -> V.
Variable position_to_int : P -> Z.
Variable CS : Z.
Variable L : Limits.

Hypothesis build_total : forall x z, is_Some (build x z).

Local Abbreviation step' := (step build upload position_to_int CS L).
Local Abbreviation run' := (run build upload position_to_int CS L).
Local Abbreviation r := (chunk_generation_radius L).

Hypothesis Hr : 1 <= r <= 2 ^ 30.

Lemma run_app (m : Machine H M V P) (es1 es2 : list (event P)) :
  run' m (es1 ++ es2) = run' (run' m es1) es2.
Proof. unfold run. apply fold_left_app. Qed.

Lemma small_in_range (n : Z) : - 2 ^ 30 - 1 <= n <= 2 ^ 30 + 1 -> Int32.in_range n.
Proof. unfold Int32.in_range, Int32.min_int, Int32.max_int. lia. Qed.

Lemma ring_step (m0 m : Machine H M V P) (visited : list (Z * Z)) (px pz x z : Z) :
  pass_inv m0 m visited -> worker m = InRing px pz x z ->
  pass_inv m0 (step' m WorkerStep) (visited ++ [ring_coord CS px pz x z])
  /\ worker (step' m WorkerStep) = next_in_ring L px pz x z.
Proof.
  intros (Hc & Hd & Hf & Hb & Hq) Hw.
  unfold step. rewrite Hf. unfold world_generation_fn_step. rewrite Hw, Hd.
  unfold generateChunk. rewrite Hc.
  unfold pass_inv. rewrite filter_app.
  unfold ring_coord at 1 2.
  destruct (registered (Int32.add px (Int32.mul x CS))
                       (Int32.add pz (Int32.mul z CS)) (chunks (world m0))) eqn:Hreg.
  - rewrite Hf. unfold set_worker, queue_coords in *.
    cbn [world destroyed fault builds worker chunks chunkMeshGenerationQueue].
    rewrite (filter_cons_False _ (ring_coord CS px pz x z)).
    2:{ unfold unregistered, ring_coord. cbn [fst snd]. rewrite Hreg. discriminate. }
    rewrite filter_nil, !app_nil_r.
    repeat split; assumption.
  - destruct (build_total (Int32.add px (Int32.mul x CS))
                          (Int32.add pz (Int32.mul z CS))) as [[hm md] ->].
    cbn [fault]. rewrite Hf. unfold set_worker, queue_coords in *.
    cbn [world destroyed fault builds worker chunks chunkMeshGenerationQueue].
    rewrite (filter_cons_True _ (ring_coord CS px pz x z)).
    2:{ unfold unregistered, ring_coord. cbn [fst snd]. rewrite Hreg. reflexivity. }
    rewrite filter_nil, !app_assoc, <- Hb, <- Hq.
    rewrite map_app. cbn [map chunk chunk_x chunk_z].
    repeat split; try assumption; reflexivity.
Qed.

Lemma next_in_ring_spec (px pz x z : Z) :
  - r <= x < r -> - r <= z < r ->
  next_in_ring L px pz x z
  = if z + 1 <? r then InRing px pz x (z + 1)
    else if x + 1 <? r then InRing px pz (x + 1) (- r) else AtLoopHead.
Proof.
  intros Hx Hz. unfold next_in_ring. cbv zeta.
  rewrite (int_add_id z 1), (int_add_id x 1) by (apply small_in_range; lia).
  rewrite (wrap32_id (- r)) by (apply small_in_range; lia).
  destruct (z + 1 <? r); [reflexivity |].
  destruct (x + 1 <? r); [| reflexivity].
  destruct (Z.ltb_spec (- r) r); [reflexivity | lia].
Qed.

Lemma run_cons (m : Machine H M V P) (e : event P) (es : list (event P)) :
  run' m (e :: es) = run' (step' m e) es.
Proof. reflexivity. Qed.

(** The rest of row [x], from column [z] on. *)
Lemma ring_row (m0 : Machine H M V P) (px pz x : Z) :
  - r <= x < r ->
  forall (k : nat) (z : Z) (visited : list (Z * Z)) (m : Machine H M V P),
    pass_inv m0 m visited -> worker m = InRing px pz x z ->
    - r <= z -> z + Z.of_nat (S k) = r ->
    pass_inv m0 (run' m (replicate (S k) WorkerStep))
             (visited ++ map (ring_coord CS px pz x) (seqZ z (Z.of_nat (S k))))
    /\ worker (run' m (replicate (S k) WorkerStep))
       = if x + 1 <? r then InRing px pz (x + 1) (- r) else AtLoopHead.
Proof.
  intros Hx. induction k as [| k IH]; intros z visited m Hpass Hw Hz Hk.
  - cbn [replicate]. rewrite run_cons. change (run' ?m []) with m.
    destruct (ring_step m0 m visited px pz x z Hpass Hw) as [Hpass' Hw'].
    rewrite next_in_ring_spec in Hw' by lia.
    destruct (Z.ltb_spec (z + 1) r); [lia |].
    change (seqZ z (Z.of_nat 1)) with [z]. cbn [map].
    split; assumption.
  - cbn [replicate]. rewrite run_cons.
    destruct (ring_step m0 m visited px pz x z Hpass Hw) as [Hpass' Hw'].
    rewrite next_in_ring_spec in Hw' by lia.
    destruct (Z.ltb_spec (z + 1) r); [| lia].
    destruct (IH (z + 1) _ _ Hpass' Hw' ltac:(lia) ltac:(lia)) as [Hp Hwk].
    split; [| exact Hwk].
    rewrite (seqZ_cons z (Z.of_nat (S (S k)))) by lia.
    replace (Z.pred (Z.of_nat (S (S k)))) with (Z.of_nat (S k)) by lia.
    replace (Z.succ z) with (z + 1) by lia.
    cbn [map]. rewrite <- app_assoc in Hp. exact Hp.
Qed.

(** The rows from [x] on. *)
Lemma ring_rows (m0 : Machine H M V P) (px pz : Z) :
  forall (j : nat) (x : Z) (visited : list (Z * Z)) (m : Machine H M V P),
    pass_inv m0 m visited -> worker m = InRing px pz x (- r) ->
    - r <= x -> x + Z.of_nat (S j) = r ->
    pass_inv m0 (run' m (replicate (S j * Z.to_nat (2 * r)) WorkerStep))
             (visited
              ++ flat_map (fun x => map (ring_coord CS px pz x) (seqZ (- r) (2 * r)))
                          (seqZ x (Z.of_nat (S j))))
    /\ worker (run' m (replicate (S j * Z.to_nat (2 * r)) WorkerStep)) = AtLoopHead.
Proof.
  assert (Hn : Z.to_nat (2 * r) = S (Z.to_nat (2 * r - 1))) by lia.
  induction j as [| j IH]; intros x visited m Hpass Hw Hx Hj.
  - rewrite Nat.mul_1_l, Hn.
    destruct (ring_row m0 px pz x ltac:(lia) (Z.to_nat (2 * r - 1)) (- r)
                       visited m Hpass Hw ltac:(lia) ltac:(lia)) as [Hp Hwk].
    destruct (Z.ltb_spec (x + 1) r); [lia |].
    split; [| exact Hwk].
    change (seqZ x (Z.of_nat 1)) with [x]. cbn [flat_map]. rewrite app_nil_r.
    replace (Z.of_nat (S (Z.to_nat (2 * r - 1)))) with (2 * r) in Hp by lia.
    exact Hp.
  - replace (S (S j) * Z.to_nat (2 * r))%nat
      with (Z.to_nat (2 * r) + S j * Z.to_nat (2 * r))%nat by lia.
    rewrite replicate_add, run_app. rewrite Hn at 1 3.
    destruct (ring_row m0 px pz x ltac:(lia) (Z.to_nat (2 * r - 1)) (- r)
                       visited m Hpass Hw ltac:(lia) ltac:(lia)) as [Hp Hwk].
    destruct (Z.ltb_spec (x + 1) r); [| lia].
    replace (Z.of_nat (S (Z.to_nat (2 * r - 1)))) with (2 * r) in Hp by lia.
    destruct (IH (x + 1) _ _ Hp Hwk ltac:(lia) ltac:(lia)) as [Hp' Hwk'].
    split; [| exact Hwk'].
    rewrite (seqZ_cons x (Z.of_nat (S (S j)))) by lia.
    replace (Z.pred (Z.of_nat (S (S j)))) with (Z.of_nat (S j)) by lia.
    replace (Z.succ x) with (x + 1) by lia.
    cbn [flat_map]. rewrite <- app_assoc in Hp'. exact Hp'.
Qed.

(** X16: one pass: from the loop head, with no frame rendered meanwhile, the
    worker visits the (2r)² coordinates of the ring around the aligned
    position row by row, builds and queues exactly those that are not
    registered, leaves the registry alone and is back at the loop head. *)
Theorem worker_pass (m : Machine H M V P) :
  worker m = AtLoopHead -> destroyed m = false -> fault m = None ->
  Z.of_nat (length (chunks (world m))) <= chunk_ceiling L ->
  let px := chunk_align CS (position_to_int (vx (observation m))) in
  let pz := chunk_align CS (position_to_int (vz (observation m))) in
  let todo := filter (fun c => unregistered (chunks (world m)) c = true)
                     (ring_coords CS r px pz) in
  let m' := run' m (replicate (S (Z.to_nat (2 * r) * Z.to_nat (2 * r))) WorkerStep) in
  worker m' = AtLoopHead
  /\ chunks (world m') = chunks (world m)
  /\ builds m' = builds m ++ todo
  /\ queue_coords m' = queue_coords m ++ todo.
Proof.
  intros Hw Hd Hf Hlen px pz todo m'.
  assert (Hn : Z.to_nat (2 * r) = S (Z.to_nat (2 * r - 1))) by lia.
  assert (Hhead : pass_inv m (step' m WorkerStep) []
                  /\ worker (step' m WorkerStep) = InRing px pz (- r) (- r)).
  { unfold step. rewrite Hf. unfold world_generation_fn_step. rewrite Hw, Hd.
    destruct (Z.gtb_spec (Z.of_nat (length (chunks (world m)))) (chunk_ceiling L));
      [lia |].
    unfold enter_ring. cbv zeta.
    rewrite (wrap32_id (- r)) by (apply small_in_range; lia).
    destruct (Z.ltb_spec (- r) r); [| lia].
    unfold pass_inv, set_worker, queue_coords. cbn. rewrite ?filter_nil, ?app_nil_r.
    repeat split; assumption. }
  destruct Hhead as [Hpass Hw1].
  unfold m'. cbn [replicate]. rewrite run_cons.
  pose proof (ring_rows m px pz (Z.to_nat (2 * r - 1)) (- r) [] _ Hpass Hw1
                        ltac:(lia) ltac:(lia)) as [Hp Hwk].
  rewrite <- Hn in Hp, Hwk.
  replace (Z.of_nat (Z.to_nat (2 * r))) with (2 * r) in Hp by lia.
  destruct Hp as (Hc & _ & _ & Hb & Hq).
  split; [exact Hwk |]. split; [exact Hc |]. split; [exact Hb | exact Hq].
Qed.

End WorkerPass.

(** ** The guard of the worker and the faults of the World *)

Section Guard.
Context {H M V P : Type}.
Variable build : Z -> Z -> option (H * M).
Variable upload : M -> V.
Variable position_to_int : P -> Z.
Variable CS : Z.
Variable L : Limits.

Local Abbreviation step' := (step build upload position_to_int CS L).
Local Abbreviation run' := (run build upload position_to_int CS L).

(** X17: when the worker finds more chunks registered than the ceiling allows as
    it reaches the loop head, it returns, and no chunk is built afterwards,
    whatever happens next. *)
Theorem worker_stops_above_ceiling (m : Machine H M V P) (es : list (event P)) :
  worker m = AtLoopHead -> destroyed m = false -> fault m = None ->
  worldGenerationThread (world m) = true ->
  chunk_ceiling L < Z.of_nat (length (chunks (world m))) ->
  worker (step' m WorkerStep) = Returned
  /\ builds (run' m (WorkerStep :: es)) = builds m.
Proof.
  intros Hw Hd Hf Ht Hlen.
  assert (Hstep : step' m WorkerStep = set_worker m Returned).
  { unfold step. rewrite Hf. unfold world_generation_fn_step. rewrite Hw, Hd.
    destruct (Z.gtb_spec (Z.of_nat (length (chunks (world m)))) (chunk_ceiling L));
      [reflexivity | lia]. }
  split; [rewrite Hstep; reflexivity |].
  change (run' m (WorkerStep :: es)) with (run' (step' m WorkerStep) es).
  rewrite Hstep.
  rewrite (worker_never_builds_run build upload position_to_int CS L es).
  - reflexivity.
  - split; [right; reflexivity | left; exact Ht].
Qed.

End Guard.

Lemma worker_stops_above_ceiling_witness :
  worker (skeleton_step 16 no_chunk_limits one_chunk_registered WorkerStep) = Returned
  /\ builds (skeleton_run 16 no_chunk_limits one_chunk_registered
                           [WorkerStep; WorkerStep; Render])
     = builds one_chunk_registered.
Proof.
  apply (worker_stops_above_ceiling (fun _ _ => Some (tt, tt)) (fun _ => tt)
           (fun p => p) 16 no_chunk_limits one_chunk_registered
           [WorkerStep; Render]);
    reflexivity.
Defined.

(** X18: in no execution from a fresh World does a store of [generateChunk]
    land outside the array it was allocated for, and while the World exists
    the execution records no fault at all: the worker meets a destroyed
    World only after the destructor has run.  The faults recorded are these
    two; a read beyond [BIOME_HEIGHT_SCALING_FACTORS] and unsynchronised
    accesses of the two threads are not among them. *)
Theorem world_faults_only_after_destroy {F : Type} `{FloatOps F} (T : Terrain F)
    (normalize : vec3 F -> vec3 F) (L : Limits) (p : vec3 F) (es : list (event F)) :
  0 < CHUNK_SIZE T ->
  CHUNK_SIZE T * CHUNK_SIZE T * 6 <= Int32.max_int ->
  fault (world_run T normalize L (fresh_machine p) es) <> Some OutOfBoundsWrite
  /\ (destroyed (world_run T normalize L (fresh_machine p) es) = false ->
      fault (world_run T normalize L (fresh_machine p) es) = None)
  /\ (fault (world_run T normalize L (fresh_machine p) es) = Some UseAfterFree ->
      destroyed (world_run T normalize L (fresh_machine p) es) = true).
Proof.
  intros HCS Hmax. unfold world_run.
  assert (Hok : fault_ok (run (build_chunk T normalize) upload_mesh to_int
                              (CHUNK_SIZE T) L (fresh_machine p) es)).
  { apply fault_ok_run.
    - intros x z. rewrite build_chunk_eq by assumption. eexists. reflexivity.
    - left. reflexivity. }
  destruct Hok as [Hnone | [Huse Hd]].
  - rewrite Hnone. repeat split; [discriminate | discriminate].
  - rewrite Huse, Hd. repeat split; [discriminate | discriminate].
Qed.

Lemma world_faults_only_after_destroy_witness :
  fault (world_run flat_terrain glm_normalize source_limits (fresh_machine origin)
                   step_after_destroy) <> Some OutOfBoundsWrite
  /\ (destroyed (world_run flat_terrain glm_normalize source_limits
                           (fresh_machine origin) step_after_destroy) = false ->
      fault (world_run flat_terrain glm_normalize source_limits
                       (fresh_machine origin) step_after_destroy) = None)
  /\ (fault (world_run flat_terrain glm_normalize source_limits
                       (fresh_machine origin) step_after_destroy) = Some UseAfterFree ->
      destroyed (world_run flat_terrain glm_normalize source_limits
                           (fresh_machine origin) step_after_destroy) = true).
Proof.
  apply (world_faults_only_after_destroy flat_terrain glm_normalize source_limits
           origin step_after_destroy).
  - simpl. lia.
  - simpl. unfold Int32.max_int. lia.
Defined.

(** ** Instances on the skeleton *)

Lemma start_twice_witness :
  skeleton_step 16 source_limits generating_with_drawable
                (StartWorldGeneration NullObservation)
  = generating_with_drawable
  /\ skeleton_step 16 source_limits
       (skeleton_run 16 source_limits generating_with_drawable [WorkerStep; Render])
       (StartWorldGeneration NullObservation)
     = skeleton_run 16 source_limits generating_with_drawable [WorkerStep; Render].
Proof.
  apply (start_twice (fun _ _ => Some (tt, tt)) (fun _ => tt) (fun p => p)
           16 source_limits generating_with_drawable [WorkerStep; Render]
           NullObservation).
  reflexivity.
Defined.

Lemma handoff_is_fifo_witness :
  chunk_coords short_run ++ queue_coords short_run = builds short_run.
Proof.
  apply (handoff_is_fifo (fun _ _ => Some (tt, tt)) (fun _ => tt) (fun p => p)
           16 source_limits (Vec3 0 0 0) short_schedule).
  vm_compute. reflexivity.
Defined.

Lemma heap_while_alive_witness :
  (ImmatureBlock, 0) ∈ heap short_run
  <-> owned_block (chunk_serials short_run) (queue_serials short_run)
                  (Z.of_nat (length (builds short_run))) (ImmatureBlock, 0).
Proof.
  apply (heap_while_alive (fun _ _ => Some (tt, tt)) (fun _ => tt) (fun p => p)
           16 source_limits (Vec3 0 0 0) short_schedule (ImmatureBlock, 0)).
  vm_compute. reflexivity.
Defined.

Lemma destructor_leaks_witness :
  (HeightMapBlock, 1) ∈ heap (skeleton_step 16 source_limits short_run Destroy)
  <-> leaked_block (queue_serials short_run)
                   (Z.of_nat (length (builds short_run))) (HeightMapBlock, 1).
Proof.
  apply (destructor_leaks (fun _ _ => Some (tt, tt)) (fun _ => tt) (fun p => p)
           16 source_limits (Vec3 0 0 0) short_schedule (HeightMapBlock, 1));
    vm_compute; reflexivity.
Defined.

Lemma registry_grows_by_render_witness :
  exists added,
    chunks (world (skeleton_step 16 source_limits short_run Render))
    = chunks (world short_run) ++ added
    /\ (length added <= 1)%nat
    /\ (added <> [] -> Render (P := Z) = Render).
Proof.
  apply (registry_grows_by_render (fun _ _ => Some (tt, tt)) (fun _ => tt)
           (fun p => p) 16 source_limits short_run Render).
  discriminate.
Defined.

Lemma worker_pass_witness :
  let todo := filter (fun c => unregistered (chunks (world at_loop_head)) c = true)
                     (ring_coords 16 1 (chunk_align 16 0) (chunk_align 16 0)) in
  let m' := skeleton_run 16 scenario_limits at_loop_head
              (replicate (S (Z.to_nat (2 * 1) * Z.to_nat (2 * 1))) WorkerStep) in
  worker m' = AtLoopHead
  /\ chunks (world m') = chunks (world at_loop_head)
  /\ builds m' = builds at_loop_head ++ todo
  /\ queue_coords m' = queue_coords at_loop_head ++ todo.
Proof.
  apply (worker_pass (fun _ _ => Some (tt, tt)) (fun _ => tt) (fun p => p)
           16 scenario_limits);
    try reflexivity.
  - intros x z. eexists. reflexivity.
  - cbn. lia.
  - cbn. lia.
Defined.

Lemma build_chunk_vertices_witness :
  exists heights data,
    build_chunk flat_terrain glm_normalize (-16) 32 = Some (heights, data)
    /\ length (vertices data) = Z.to_nat ((16 + 1) * (16 + 1))
    /\ vertices_count data = (16 + 1) * (16 + 1)
    /\ forall i j, 0 <= i <= 16 -> 0 <= j <= 16 ->
        vertices data !! Z.to_nat (i * (16 + 1) + j)
        = Some (Some (grid_vertex flat_terrain glm_normalize (-16) 32 i j)).
Proof.
  apply (build_chunk_vertices flat_terrain glm_normalize); simpl;
    unfold Int32.max_int; lia.
Defined.

Lemma build_chunk_indices_refer_to_vertices_witness :
  exists heights data,
    build_chunk flat_terrain glm_normalize (-16) 32 = Some (heights, data)
    /\ forall c, c ∈ indices data ->
        exists k v, c = Some k /\ 0 <= k
                    /\ vertices data !! Z.to_nat k = Some (Some v).
Proof.
  apply (build_chunk_indices_refer_to_vertices flat_terrain glm_normalize); simpl;
    unfold Int32.max_int; lia.
Defined.

Lemma build_chunk_heights_match_vertices_witness :
  exists heights data,
    build_chunk flat_terrain glm_normalize (-16) 32 = Some (heights, data)
    /\ forall i j, 0 <= i < 16 -> 0 <= j < 16 ->
        exists v,
          vertices data !! Z.to_nat (i * (16 + 1) + j) = Some (Some v)
          /\ heights !! Z.to_nat (i * 16 + j) = Some (Some (v_y R v)).
Proof.
  apply (build_chunk_heights_match_vertices flat_terrain glm_normalize); simpl;
    unfold Int32.max_int; lia.
Defined.

Lemma build_chunk_seamless_witness :
  exists h d hx dx hz dz v w,
    build_chunk flat_terrain glm_normalize (-16) 32 = Some (h, d)
    /\ build_chunk flat_terrain glm_normalize (Int32.add (-16) 16) 32 = Some (hx, dx)
    /\ build_chunk flat_terrain glm_normalize (-16) (Int32.add 32 16) = Some (hz, dz)
    /\ vertices d !! Z.to_nat (16 * (16 + 1) + 5) = Some (Some v)
    /\ vertices dx !! Z.to_nat (0 * (16 + 1) + 5) = Some (Some v)
    /\ vertices d !! Z.to_nat (5 * (16 + 1) + 16) = Some (Some w)
    /\ vertices dz !! Z.to_nat (5 * (16 + 1) + 0) = Some (Some w).
Proof.
  apply (build_chunk_seamless flat_terrain glm_normalize); simpl;
    unfold Int32.max_int; lia.
Defined.

(** ** The range of the heights *)

Section HeightRange.
Variable T : Terrain Q.
Hypothesis noise_range : forall a b : Q, (- (1) <= noise T a b <= 1)%Q.

Lemma octave_loop_range (x z : Q) (octaves : list (Q * Q)) :
  Forall (fun octave => (0 <= snd octave)%Q) octaves ->
  forall acc : Q,
    (acc - amplitude_sum octaves <= octave_loop T x z octaves acc)%Q
    /\ (octave_loop T x z octaves acc <= acc + amplitude_sum octaves)%Q.
Proof.
  unfold octave_loop.
  induction 1 as [| [w a] octaves Ha Hall IH]; intros acc.
  - cbn [fold_left amplitude_sum fold_right]. split; lra.
  - change (amplitude_sum ((w, a) :: octaves)) with (a + amplitude_sum octaves)%Q.
    cbn [fold_left fst snd]. cbn [snd] in Ha.
    specialize (IH (fadd acc (fmul (noise T (fdiv x w) (fdiv z w)) a))).
    pose proof (noise_range (fdiv x w) (fdiv z w)) as Hn.
    set (n := noise T (fdiv x w) (fdiv z w)) in *.
    set (rest := amplitude_sum octaves) in *.
    set (res := fold_left _ _ _) in *.
    cbn [fadd fmul Q_FloatOps] in IH.
    assert (Hna : (- a <= n * a <= a)%Q) by nra.
    split; lra.
Qed.

Lemma biome_noise_range (x z : Q) : (0 <= getBiomeNoise T x z <= 1)%Q.
Proof.
  rewrite getBiomeNoise_Q.
  pose proof (noise_range (x / 100)%Q (z / 100)%Q) as Hn.
  split.
  - apply Qle_shift_div_l; lra.
  - apply Qle_shift_div_r; lra.
Qed.

(** X19: in exact arithmetic, with the raw noise in [-1, 1], non-negative
    amplitudes and a non-negative maximum height, the height never exceeds,
    in absolute value, the largest biome factor times the sum of the
    amplitudes times the maximum height. *)
Theorem height_range (S x z : Q) :
  (forall i : Z, (- S <= array_read T (BIOME_HEIGHT_SCALING_FACTORS T) i <= S)%Q) ->
  Forall (fun octave => (0 <= snd octave)%Q) (CHUNK_GENERATION_OCTAVES T) ->
  (0 <= CHUNK_GENERATION_MAX_HEIGHT T)%Q ->
  (- (S * amplitude_sum (CHUNK_GENERATION_OCTAVES T) * CHUNK_GENERATION_MAX_HEIGHT T)
   <= getChunkHeight T x z)%Q
  /\ (getChunkHeight T x z
      <= S * amplitude_sum (CHUNK_GENERATION_OCTAVES T)
         * CHUNK_GENERATION_MAX_HEIGHT T)%Q.
Proof.
  intros Htable Hamp Hmax. unfold getChunkHeight. cbv zeta.
  pose proof (biome_noise_range (fdiv x (flit 10)) (fdiv z (flit 10))) as Hb.
  set (b := getBiomeNoise T _ _) in *.
  specialize (Htable (biome_index T b)).
  set (t := array_read T _ _) in *.
  destruct (octave_loop_range (fdiv x (flit 10)) (fdiv z (flit 10)) _ Hamp (flit 0))
    as [Hlo Hhi].
  set (s := octave_loop T _ _ _ _) in *.
  set (A := amplitude_sum _) in *.
  set (Mx := CHUNK_GENERATION_MAX_HEIGHT T) in *.
  cbn [fmul flit Q_FloatOps] in *.
  assert (HS : (0 <= S)%Q) by lra.
  assert (HA : (0 <= A)%Q) by lra.
  assert (Hu : (- S <= t * b <= S)%Q) by nra.
  assert (Hw : (- (A * Mx) <= s * Mx <= A * Mx)%Q) by nra.
  set (u := (t * b)%Q) in *. set (w := (s * Mx)%Q) in *.
  assert (HAM : (0 <= A * Mx)%Q) by nra.
  set (AM := (A * Mx)%Q) in *.
  assert (Hgoal : (- (S * AM) <= u * w <= S * AM)%Q) by nra.
  split.
  - eapply Qle_trans; [| apply Hgoal]. unfold AM. ring_simplify. apply Qle_refl.
  - eapply Qle_trans; [apply Hgoal |]. unfold AM. ring_simplify. apply Qle_refl.
Qed.

End HeightRange.

Lemma height_range_witness :
  (- (1 * amplitude_sum (CHUNK_GENERATION_OCTAVES (constant_terrain (1 # 2)))
      * CHUNK_GENERATION_MAX_HEIGHT (constant_terrain (1 # 2)))
   <= getChunkHeight (constant_terrain (1 # 2)) 3 4)%Q
  /\ (getChunkHeight (constant_terrain (1 # 2)) 3 4
      <= 1 * amplitude_sum (CHUNK_GENERATION_OCTAVES (constant_terrain (1 # 2)))
         * CHUNK_GENERATION_MAX_HEIGHT (constant_terrain (1 # 2)))%Q.
Proof.
  apply (height_range (constant_terrain (1 # 2))).
  - intros a b. simpl. split; discriminate.
  - intros i. unfold array_read. simpl.
    change (Z.of_nat 1) with 1.
    destruct (decide (0 <= i < 1)) as [Hi | Hi].
    + replace i with 0 by lia. simpl. unfold Qle. simpl. lia.
    + unfold Qle. simpl. lia.
  - simpl. apply Forall_cons. split; [unfold Qle; simpl; lia | apply Forall_nil_2].
  - unfold Qle. simpl. lia.
Defined.
